(** * keyboardtester: the event loop of [main.go], embedded and verified

    The program polls terminal events, classifies key events into semantic
    labels, keeps a permanent set of pressed labels, a bounded log of the
    events and three exit counters, and repaints a fixed keyboard after
    every key event.

    Layout of this file:
    - Go primitives used by the program (machine integers, byte strings,
      UTF-8, [fmt] verbs, [strings.ToUpper]);
    - the constants of [github.com/gdamore/tcell/v2] that [main.go] names;
    - the program: [initKeys], [labelFromEvent], [modString], [drawKey],
      [drawAll] and the body of the loop of [main];
    - the vocabulary of the properties and the inputs of the examples;
    - the properties, C1 to C10, each after the lemmas it needs;
    - further properties of the same code, X1 to X18: whole runs of the
      loop, the modifier marks, the labels, the layout and the frame;
    - the examples, and the inputs on which the program differs from its
      description. *)

From Stdlib Require Import ZArith Ascii String Lia.
From stdpp Require Import gmap strings list pretty.

Local Open Scope Z_scope.

(** ** Go primitives *)

(** [int] is a 64-bit two's complement integer; arithmetic wraps around. *)
Definition int_wrap (z : Z) : Z := (z + 2 ^ 63) mod 2 ^ 64 - 2 ^ 63.
Definition max_int : Z := 2 ^ 63 - 1.

Definition int_add (a b : Z) : Z := int_wrap (a + b).
Definition int_sub (a b : Z) : Z := int_wrap (a - b).

(** A Go [string] is a sequence of bytes: [String.string].  Bytes are read
    as integers in [0, 255]. *)
Definition byte_val (c : ascii) : Z := Z.of_N (N_of_ascii c).
Definition byte_chr (b : Z) : ascii := ascii_of_N (Z.to_N (b mod 256)).

Definition bytes (s : string) : list Z :=
  byte_val <$> String.list_ascii_of_string s.
Definition of_bytes (bs : list Z) : string :=
  String.string_of_list_ascii (byte_chr <$> bs).

(** [len(s)]: the number of bytes. *)
Definition len (s : string) : Z := Z.of_nat (String.length s).

(** [strings.Repeat(" ", n)], empty for [n <= 0]. *)
Definition spaces (n : Z) : string :=
  String.string_of_list_ascii (replicate (Z.to_nat n) " "%char).

(** Package [unicode/utf8]. *)
Module utf8.

Definition RuneError : Z := 0xFFFD.
Definition RuneSelf : Z := 0x80.
Definition MaxRune : Z := 0x10FFFF.
Definition surrogateMin : Z := 0xD800.
Definition surrogateMax : Z := 0xDFFF.

(** [byte(x)]: conversion to an 8-bit value keeps the low bits. *)
Definition byte (x : Z) : Z := Z.land x 0xFF.

Definition encode3 (r : Z) : list Z :=
  [ Z.lor 0xE0 (byte (Z.shiftr r 12));
    Z.lor 0x80 (Z.land (byte (Z.shiftr r 6)) 0x3F);
    Z.lor 0x80 (Z.land (byte r) 0x3F) ].

(** [EncodeRune]: the switch is on [uint32(r)], so that negative runes fall
    in the erroneous case together with surrogates and values above
    [MaxRune]; these are written as [RuneError]. *)
Definition EncodeRune (r : Z) : list Z :=
  let i := r mod 2 ^ 32 in
  if i <=? 0x7F then [ byte i ]
  else if i <=? 0x7FF then
    [ Z.lor 0xC0 (byte (Z.shiftr i 6)); Z.lor 0x80 (Z.land (byte i) 0x3F) ]
  else if (MaxRune <? i) || ((surrogateMin <=? i) && (i <=? surrogateMax))
  then encode3 RuneError
  else if i <=? 0xFFFF then encode3 i
  else
    [ Z.lor 0xF0 (byte (Z.shiftr i 18));
      Z.lor 0x80 (Z.land (byte (Z.shiftr i 12)) 0x3F);
      Z.lor 0x80 (Z.land (byte (Z.shiftr i 6)) 0x3F);
      Z.lor 0x80 (Z.land (byte i) 0x3F) ].

(** The table [first] with [acceptRanges]: for a leading byte, the size of
    the encoding and the range accepted for the second byte; [None] for a
    byte that cannot start an encoding.  ASCII is handled by the caller. *)
Definition first (b : Z) : option (nat * Z * Z) :=
  if b <? 0xC2 then None
  else if b <=? 0xDF then Some (2%nat, 0x80, 0xBF)
  else if b =? 0xE0 then Some (3%nat, 0xA0, 0xBF)
  else if b <=? 0xEC then Some (3%nat, 0x80, 0xBF)
  else if b =? 0xED then Some (3%nat, 0x80, 0x9F)
  else if b <=? 0xEF then Some (3%nat, 0x80, 0xBF)
  else if b =? 0xF0 then Some (4%nat, 0x90, 0xBF)
  else if b <=? 0xF3 then Some (4%nat, 0x80, 0xBF)
  else if b =? 0xF4 then Some (4%nat, 0x80, 0x8F)
  else None.

Definition cont (b : Z) : bool := (0x80 <=? b) && (b <=? 0xBF).

(** [DecodeRuneInString]: the first rune of a byte sequence and its width
    in bytes; [(RuneError, 1)] for an encoding that is invalid or cut
    short, [(RuneError, 0)] for the empty sequence. *)
Definition DecodeRune (s : list Z) : Z * nat :=
  match s with
  | [] => (RuneError, 0%nat)
  | s0 :: t0 =>
    if s0 <? RuneSelf then (s0, 1%nat)
    else match first s0 with
    | None => (RuneError, 1%nat)
    | Some (sz, lo, hi) =>
      match t0 with
      | [] => (RuneError, 1%nat)
      | s1 :: t1 =>
        if (s1 <? lo) || (hi <? s1) then (RuneError, 1%nat)
        else if (sz <=? 2)%nat then
          (Z.lor (Z.shiftl (Z.land s0 0x1F) 6) (Z.land s1 0x3F), 2%nat)
        else match t1 with
        | [] => (RuneError, 1%nat)
        | s2 :: t2 =>
          if negb (cont s2) then (RuneError, 1%nat)
          else if (sz <=? 3)%nat then
            (Z.lor (Z.lor (Z.shiftl (Z.land s0 0x0F) 12)
                          (Z.shiftl (Z.land s1 0x3F) 6))
                   (Z.land s2 0x3F), 3%nat)
          else match t2 with
          | [] => (RuneError, 1%nat)
          | s3 :: _ =>
            if negb (cont s3) then (RuneError, 1%nat)
            else
              (Z.lor (Z.lor (Z.lor (Z.shiftl (Z.land s0 0x07) 18)
                                   (Z.shiftl (Z.land s1 0x3F) 12))
                            (Z.shiftl (Z.land s2 0x3F) 6))
                     (Z.land s3 0x3F), 4%nat)
          end
        end
      end
    end
  end.

End utf8.

(** [for i, r := range s]: the byte index and the rune of every iteration.
    An invalid encoding yields [RuneError] and advances by one byte. *)
Fixpoint range_from (fuel : nat) (i : Z) (s : list Z) : list (Z * Z) :=
  match fuel, s with
  | O, _ | _, [] => []
  | S fuel', _ :: _ =>
    let '(r, w) := utf8.DecodeRune s in
    (i, r) :: range_from fuel' (i + Z.of_nat w) (drop w s)
  end.

Definition range_string (s : string) : list (Z * Z) :=
  let bs := bytes s in range_from (length bs) 0 bs.

(** [string(r)] for a rune [r]: its UTF-8 encoding, [RuneError]'s for a
    value that is not a valid code point. *)
Definition string_of_rune (r : Z) : string := of_bytes (utf8.EncodeRune r).

(** [utf8.RuneCountInString]: erroneous and short encodings count as single
    runes of width one, as in a range loop. *)
Definition RuneCountInString (s : string) : Z :=
  Z.of_nat (length (range_string s)).

(** Package [fmt]: the verbs of the two format strings of [main.go].
    Widths are counted in runes; a value wider than the width is printed
    in full. *)
Definition fmt_d (n : Z) : string := pretty n.

(** [%-Ns]: flush left, spaces added on the right up to [width] runes. *)
Definition fmt_s_left (width : Z) (s : string) : string :=
  s +:+ spaces (width - RuneCountInString s).

(** [%Nd]: flush right, spaces added on the left up to [width] runes. *)
Definition fmt_d_right (width : Z) (n : Z) : string :=
  spaces (width - RuneCountInString (fmt_d n)) +:+ fmt_d n.

(** Package [time]: a wall-clock reading, and its layout ["15:04:05"]. *)
Record Time := { Hour : Z; Minute : Z; Second : Z }.

Definition two_digits (n : Z) : string :=
  fmt_d (n / 10 mod 10) +:+ fmt_d (n mod 10).

Definition time_Format (t : Time) : string :=
  two_digits (Hour t) +:+ ":" +:+ two_digits (Minute t) +:+ ":"
    +:+ two_digits (Second t).

(** Package [strings]. *)
Fixpoint strings_Join (parts : list string) (sep : string) : string :=
  match parts with
  | [] => EmptyString
  | [p] => p
  | p :: rest => p +:+ sep +:+ strings_Join rest sep
  end.

(** [strings.Map]: every rune of [s] is replaced by its image, and dropped
    when the image is negative. *)
Definition strings_Map (mapping : Z → Z) (s : string) : string :=
  foldr (λ '(_, c) acc,
           let r := mapping c in
           if 0 <=? r then string_of_rune r +:+ acc else acc)
        EmptyString (range_string s).

Definition isASCII (s : string) : bool :=
  forallb (λ c, c <? utf8.RuneSelf) (bytes s).

Definition upper_byte (c : Z) : Z :=
  if (97 <=? c) && (c <=? 122) then c - 32 else c.

(** ** The constants of tcell/v2 used by [main.go] *)

(** Modelled from the spec: tcell is a dependency of the program and its
    source is not in the repository.  The control-modified letters are
    compact control codes in the range of A to Z ([KeyCtrlA] = 1 ...
    [KeyCtrlZ] = 26), among which 13 is Enter, 8 is Backspace and 9 is Tab.
    The values are those of tcell's [key.go]: [KeyBackspace], [KeyTab],
    [KeyEnter] and [KeyEscape] are aliases of the ASCII control codes BS,
    TAB, CR and ESC, [KeyBackspace2] is DEL, and the keys without an ASCII
    code are numbered from [KeyRune] = 256. *)
Module tcell.

Definition KeyCtrlA : Z := 1.
Definition KeyCtrlZ : Z := 26.
Definition KeyBackspace : Z := 8.
Definition KeyTab : Z := 9.
Definition KeyEnter : Z := 13.
Definition KeyEscape : Z := 27.
Definition KeyBackspace2 : Z := 127.

Definition KeyRune : Z := 256.
Definition KeyUp : Z := 257.
Definition KeyDown : Z := 258.
Definition KeyRight : Z := 259.
Definition KeyLeft : Z := 260.
Definition KeyPgUp : Z := 266.
Definition KeyPgDn : Z := 267.
Definition KeyHome : Z := 268.
Definition KeyEnd : Z := 269.
Definition KeyInsert : Z := 270.
Definition KeyDelete : Z := 271.
Definition KeyF1 : Z := 279.
Definition KeyF2 : Z := 280.
Definition KeyF3 : Z := 281.
Definition KeyF4 : Z := 282.
Definition KeyF5 : Z := 283.
Definition KeyF6 : Z := 284.
Definition KeyF7 : Z := 285.
Definition KeyF8 : Z := 286.
Definition KeyF9 : Z := 287.
Definition KeyF10 : Z := 288.
Definition KeyF11 : Z := 289.
Definition KeyF12 : Z := 290.

(** The entries of the map [KeyNames] that [labelFromEvent] can read.  A Go
    map read of an absent key yields the empty string. *)
Definition KeyNames_entries : list (Z * string) :=
  [ (KeyF1, "F1"); (KeyF2, "F2"); (KeyF3, "F3"); (KeyF4, "F4");
    (KeyF5, "F5"); (KeyF6, "F6"); (KeyF7, "F7"); (KeyF8, "F8");
    (KeyF9, "F9"); (KeyF10, "F10"); (KeyF11, "F11"); (KeyF12, "F12");
    (KeyHome, "Home"); (KeyEnd, "End"); (KeyInsert, "Insert");
    (KeyDelete, "Delete"); (KeyPgUp, "PgUp"); (KeyPgDn, "PgDn");
    (KeyUp, "Up"); (KeyDown, "Down"); (KeyLeft, "Left");
    (KeyRight, "Right") ].

Definition KeyNames : gmap Z string := list_to_map KeyNames_entries.

Definition KeyNames_at (k : Z) : string :=
  default EmptyString (KeyNames !! k).

(** Modifier masks. *)
Definition ModShift : Z := 1.
Definition ModCtrl : Z := 2.
Definition ModAlt : Z := 4.

(** [*tcell.EventKey], read through [Key()], [Rune()] and [Modifiers()]. *)
Record EventKey := { Key : Z; Rune : Z; Modifiers : Z }.

(** What [PollEvent] can deliver, as far as the type switch of [main]
    tells events apart. *)
Inductive Event :=
| EvKey (ev : EventKey)
| EvResize
| EvOther.

(** Styles: [StyleDefault] and [StyleDefault.Background(ColorBlue)]. *)
Inductive Style := StyleDefault | StyleBlue.

(** The calls [main.go] makes on the screen that change what is shown. *)
Inductive ScreenCall :=
| Clear
| SetContent (x y : Z) (r : Z) (style : Style)
| Show
| Sync.

End tcell.

(** [m & mask != 0] *)
Definition has_mod (m mask : Z) : bool := negb (Z.land m mask =? 0).

(** ** The program *)

(** [type Key struct] *)
Record Key := { Label : string; X : Z; Y : Z; W : Z; H : Z }.

(** The closure [addRow] of [initKeys]: the keys of one row are appended to
    [out], [x] advancing by the width of each key plus one. *)
Fixpoint addRow_from (out : list Key) (x : Z) (labels : list string) (y : Z)
  : list Key :=
  match labels with
  | [] => out
  | L :: rest =>
    let w := int_add (len L) 2 in
    addRow_from (out ++ [ {| Label := L; X := x; Y := y; W := w; H := 3 |} ])
                (int_add x (int_add w 1)) rest y
  end.

Definition addRow (out : list Key) (labels : list string) (y : Z) : list Key :=
  addRow_from out 0 labels y.

(** The label of the backslash key, the one-byte string of code 92. *)
Definition backslash : string := String (ascii_of_nat 92) EmptyString.

Definition initKeys : list Key :=
  let out := [] in
  let out := addRow out ["Esc"; "F1"; "F2"; "F3"; "F4"; "F5"; "F6"; "F7";
                         "F8"; "F9"; "F10"; "F11"; "F12"] 0 in
  let out := addRow out ["`"; "1"; "2"; "3"; "4"; "5"; "6"; "7"; "8"; "9";
                         "0"; "-"; "="; "Backspace"] 4 in
  let out := addRow out ["Tab"; "Q"; "W"; "E"; "R"; "T"; "Y"; "U"; "I"; "O";
                         "P"; "["; "]"; backslash] 8 in
  let out := addRow out ["CapsLock"; "A"; "S"; "D"; "F"; "G"; "H"; "J"; "K";
                         "L"; ";"; "'"; "Enter"] 12 in
  let out := addRow out ["Shift"; "Z"; "X"; "C"; "V"; "B"; "N"; "M"; ",";
                         "."; "/"; "Shift"] 16 in
  let out := addRow out ["Fn"; "Ctrl"; "Win"; "Alt"; "Space"; "Alt"; "Win";
                         "Menu"; "Ctrl"] 20 in
  let out := addRow out ["Insert"; "Home"; "PgUp"] 24 in
  let out := addRow out ["Delete"; "End"; "PgDn"] 28 in
  let out := addRow out ["Left"; "Down"; "Right"; "Up"] 32 in
  out.

(** [keys[len(keys)-1].Y + keys[len(keys)-1].H], the row of the separator;
    [None] when the index is out of range (a run-time panic). *)
Definition sepY (keys : list Key) : option Z :=
  k ← last keys; Some (int_add (Y k) (H k)).

(** [pressed[label]]: a read of the map, [false] for an absent key. *)
Definition is_pressed (pressed : gmap string bool) (label : string) : bool :=
  default false (pressed !! label).

(** [modString] *)
Definition modString (m : Z) : string :=
  let parts := [] in
  let parts := if has_mod m tcell.ModCtrl then parts ++ ["Ctrl"] else parts in
  let parts := if has_mod m tcell.ModAlt then parts ++ ["Alt"] else parts in
  let parts := if has_mod m tcell.ModShift then parts ++ ["Shift"] else parts in
  if (length parts =? 0)%nat then "None" else strings_Join parts "|".

(** [drawKey]: the rectangle of the key, column by column, then the label
    on its first row.  The division is Go's, truncated towards zero. *)
Definition drawKey (k : Key) (style : tcell.Style) : list tcell.ScreenCall :=
  (dx ← seqZ 0 (W k); dy ← seqZ 0 (H k);
   [ tcell.SetContent (int_add (X k) dx) (int_add (Y k) dy) 32 style ])
  ++
  (let start := int_add (X k) (Z.quot (int_sub (W k) (len (Label k))) 2) in
   (λ '(i, r), tcell.SetContent (int_add start i) (Y k) r style)
     <$> range_string (Label k)).

(** The inner loop over a log line: it stops at the first byte index that is
    not below the width. *)
Fixpoint draw_line (w y : Z) (runes : list (Z * Z)) : list tcell.ScreenCall :=
  match runes with
  | [] => []
  | (j, r) :: rest =>
    if w <=? j then []
    else tcell.SetContent j y r tcell.StyleDefault :: draw_line w y rest
  end.

(** The three loops of [drawAll]: the keys, the separator on row [y], and
    the log lines on the rows below it. *)
Definition draw_keyboard (keys : list Key) (pressed : gmap string bool)
  : list tcell.ScreenCall :=
  k ← keys;
  drawKey k (if is_pressed pressed (Label k)
             then tcell.StyleBlue else tcell.StyleDefault).

Definition draw_separator (w y : Z) : list tcell.ScreenCall :=
  (λ x, tcell.SetContent x y 45 tcell.StyleDefault) <$> seqZ 0 w.

Definition draw_logs (w y : Z) (logs : list string)
  : list tcell.ScreenCall :=
  concat (imap (λ i line,
                  draw_line w (int_add (int_add y 1) (Z.of_nat i))
                            (range_string line)) logs).

(** [drawAll], given the width [w] that [s.Size()] reports. *)
Definition drawAll (w : Z) (keys : list Key) (logs : list string)
    (pressed : gmap string bool) : option (list tcell.ScreenCall) :=
  y ← sepY keys;
  Some (tcell.Clear :: draw_keyboard keys pressed
          ++ draw_separator w y ++ draw_logs w y logs).

(** The state of [main]: its local variables [logs], [pressed] and the
    three counters.  [keys] is assigned once and never changes. *)
Record State := {
  logs : list string;
  pressed : gmap string bool;
  escCount : Z;
  enterCount : Z;
  spaceCount : Z
}.

(** What one iteration of the loop observes besides the event: the clock
    ([time.Now()]) and the size of the screen ([s.Size()]). *)
Record Env := { now : Time; scrW : Z; scrH : Z }.

(** How one iteration of the loop ends: back to [PollEvent] with the calls
    made on the screen, [return] from [main] (with the locals as they are
    at the [return] statement), or a run-time panic. *)
Inductive Outcome :=
| Continue (st : State) (out : list tcell.ScreenCall)
| Return (st : State)
| Panic.

Definition initial : State :=
  {| logs := []; pressed := ∅; escCount := 0; enterCount := 0;
     spaceCount := 0 |}.

Definition with_counters (st : State) (e n s : Z) : State :=
  {| logs := logs st; pressed := pressed st;
     escCount := e; enterCount := n; spaceCount := s |}.

(** The exit logic: the switch at the head of the key case.  The result is
    the state after the increment and whether [main] returns. *)
Definition exitLogic (st : State) (ev : tcell.EventKey) : State * bool :=
  let k := tcell.Key ev in
  if k =? tcell.KeyEscape then
    let c := int_add (escCount st) 1 in
    (with_counters st c (enterCount st) (spaceCount st), 5 <=? c)
  else if k =? tcell.KeyEnter then
    let c := int_add (enterCount st) 1 in
    (with_counters st (escCount st) c (spaceCount st), 5 <=? c)
  else if k =? tcell.KeyRune then
    if tcell.Rune ev =? 32 then
      let c := int_add (spaceCount st) 1 in
      (with_counters st (escCount st) (enterCount st) c, 5 <=? c)
    else (st, false)
  else (st, false).

(** The trim of the log to the rows below the separator. *)
Definition safeTrim (keys : list Key) (scrH : Z) (logs : list string)
  : option (list string) :=
  y ← sepY keys;
  let maxLines := int_sub (int_sub scrH y) 1 in
  Some (if maxLines <=? 0 then []
        else if maxLines <? Z.of_nat (length logs)
             then drop (Z.to_nat (Z.of_nat (length logs) - maxLines)) logs
             else logs).

(** The control-code range test of the Ctrl mark. *)
Definition in_ctrl_range (k : Z) : bool :=
  (tcell.KeyCtrlA <=? k) && (k <=? tcell.KeyCtrlZ).

(** Go's Unicode tables are not part of the program: the three functions
    of package [unicode] that read them are an interface.
    [unicode_To_UpperCase] is [unicode.To(unicode.UpperCase, r)]. *)
Class Unicode := {
  unicode_To_UpperCase : Z → Z;
  unicode_IsLetter : Z → bool;
  unicode_IsUpper : Z → bool
}.

Section Program.

Context {tables : Unicode}.

(** [unicode.ToUpper]: ASCII is mapped directly, the rest by the tables. *)
Definition unicode_ToUpper (r : Z) : Z :=
  if r <=? 0x7F then upper_byte r else unicode_To_UpperCase r.

(** [strings.ToUpper]: bytewise on a string that is all ASCII, rune by rune
    otherwise. *)
Definition strings_ToUpper (s : string) : string :=
  if isASCII s then of_bytes (upper_byte <$> bytes s)
  else strings_Map unicode_ToUpper s.

(** [labelFromEvent]: the cases of the switch, in order. *)
Definition labelFromEvent (ev : tcell.EventKey) : string :=
  let k := tcell.Key ev in
  if k =? tcell.KeyEscape then "Esc"
  else if k =? tcell.KeyEnter then "Enter"
  else if k =? tcell.KeyTab then "Tab"
  else if (k =? tcell.KeyBackspace) || (k =? tcell.KeyBackspace2)
  then "Backspace"
  else if existsb (Z.eqb k)
            [ tcell.KeyF1; tcell.KeyF2; tcell.KeyF3; tcell.KeyF4;
              tcell.KeyF5; tcell.KeyF6; tcell.KeyF7; tcell.KeyF8;
              tcell.KeyF9; tcell.KeyF10; tcell.KeyF11; tcell.KeyF12;
              tcell.KeyHome; tcell.KeyEnd; tcell.KeyInsert; tcell.KeyDelete;
              tcell.KeyPgUp; tcell.KeyPgDn; tcell.KeyUp; tcell.KeyDown;
              tcell.KeyLeft; tcell.KeyRight ]
  then tcell.KeyNames_at k
  else if k =? tcell.KeyRune then
    if tcell.Rune ev =? 32 then "Space"
    else strings_ToUpper (string_of_rune (tcell.Rune ev))
  else if in_ctrl_range k then string_of_rune (65 + (k - tcell.KeyCtrlA))
  else "Key[" +:+ fmt_d k +:+ "]".

(** The marks on [pressed], in the order of the assignments. *)
Definition markPressed (pressed : gmap string bool) (ev : tcell.EventKey)
  : gmap string bool :=
  let mainLabel := labelFromEvent ev in
  let pressed := <[mainLabel := true]> pressed in
  let pressed :=
    if has_mod (tcell.Modifiers ev) tcell.ModCtrl
       || in_ctrl_range (tcell.Key ev)
    then <["Ctrl" := true]> pressed else pressed in
  let pressed :=
    if has_mod (tcell.Modifiers ev) tcell.ModAlt
    then <["Alt" := true]> pressed else pressed in
  let pressed :=
    if has_mod (tcell.Modifiers ev) tcell.ModShift
    then <["Shift" := true]> pressed else pressed in
  if tcell.Key ev =? tcell.KeyRune then
    let r := tcell.Rune ev in
    if unicode_IsLetter r && unicode_IsUpper r
       && negb (has_mod (tcell.Modifiers ev) tcell.ModShift)
    then <["CapsLock" := true]> pressed else pressed
  else pressed.

(** The line appended to the log:
    ["%s | %-7s | Code=%3d | Mods=%s"]. *)
Definition logLine (t : Time) (ev : tcell.EventKey) : string :=
  let ts := time_Format t in
  let mainLabel := labelFromEvent ev in
  let code := tcell.Key ev in
  let mods := modString (tcell.Modifiers ev) in
  ts +:+ " | " +:+ fmt_s_left 7 mainLabel +:+ " | Code="
     +:+ fmt_d_right 3 code +:+ " | Mods=" +:+ mods.

(** One iteration of the loop of [main], after [PollEvent] has delivered
    [ev]. *)
Definition loop_body (keys : list Key) (st : State) (ev : tcell.Event)
    (env : Env) : Outcome :=
  match ev with
  | tcell.EvKey ev =>
    let '(st, exit) := exitLogic st ev in
    if exit then Return st
    else
      let pressed := markPressed (pressed st) ev in
      let logs := logs st ++ [logLine (now env) ev] in
      match safeTrim keys (scrH env) logs with
      | None => Panic
      | Some logs =>
        match drawAll (scrW env) keys logs pressed with
        | None => Panic
        | Some frame =>
          Continue {| logs := logs; pressed := pressed;
                      escCount := escCount st;
                      enterCount := enterCount st;
                      spaceCount := spaceCount st |}
                   (frame ++ [tcell.Show])
        end
      end
  | tcell.EvResize => Continue st [tcell.Sync]
  | tcell.EvOther => Continue st []
  end.

(** The loop of [main] over the events the screen delivers, each with what
    the iteration observes.  It stops at the first iteration that does not
    continue; the calls on the screen accumulate. *)
Fixpoint main_loop (st : State) (inputs : list (tcell.Event * Env))
  : Outcome :=
  match inputs with
  | [] => Continue st []
  | (ev, env) :: rest =>
    match loop_body initKeys st ev env with
    | Continue st' out =>
      match main_loop st' rest with
      | Continue st'' out' => Continue st'' (out ++ out')
      | o => o
      end
    | o => o
    end
  end.

(** [main]: the initial frame, then the loop. *)
Definition main (w0 : Z) (inputs : list (tcell.Event * Env)) : Outcome :=
  match drawAll w0 initKeys [] ∅ with
  | None => Panic
  | Some frame =>
    match main_loop initial inputs with
    | Continue st out => Continue st (frame ++ tcell.Show :: out)
    | o => o
    end
  end.

(** The states of [main] at every poll of a run, the first one included;
    the state at a [return] closes the list. *)
Fixpoint main_trace (st : State) (inputs : list (tcell.Event * Env))
  : list State :=
  st ::
  match inputs with
  | [] => []
  | (ev, env) :: rest =>
    match loop_body initKeys st ev env with
    | Continue st' _ => main_trace st' rest
    | Return st' => [st']
    | Panic => []
    end
  end.

(** The states [main] can be in when it polls for an event. *)
Definition reachable (st : State) : Prop :=
  ∃ inputs out, main_loop initial inputs = Continue st out.

(** The labels that are marked in the map. *)
Definition pressed_set (pressed : gmap string bool) : gset string :=
  dom (filter (λ kv, kv.2 = true) pressed).

(** The keys that [labelFromEvent] names before it looks at the rune. *)
Definition named_keys : list Z :=
  [ tcell.KeyEscape; tcell.KeyEnter; tcell.KeyTab; tcell.KeyBackspace;
    tcell.KeyBackspace2;
    tcell.KeyF1; tcell.KeyF2; tcell.KeyF3; tcell.KeyF4; tcell.KeyF5;
    tcell.KeyF6; tcell.KeyF7; tcell.KeyF8; tcell.KeyF9; tcell.KeyF10;
    tcell.KeyF11; tcell.KeyF12; tcell.KeyHome; tcell.KeyEnd;
    tcell.KeyInsert; tcell.KeyDelete; tcell.KeyPgUp; tcell.KeyPgDn;
    tcell.KeyUp; tcell.KeyDown; tcell.KeyLeft; tcell.KeyRight ].

(** The counters of a state stay below the threshold while [main] polls. *)
Definition counters_below (st : State) : Prop :=
  0 <= escCount st < 5 ∧ 0 <= enterCount st < 5 ∧ 0 <= spaceCount st < 5.

(** The state in which an iteration ends, whether the loop goes on or
    [main] returns. *)
Definition outcome_state (o : Outcome) : option State :=
  match o with
  | Continue st _ | Return st => Some st
  | Panic => None
  end.

Definition returns (o : Outcome) : Prop :=
  match o with Return _ => True | _ => False end.

(** A key event that takes one of the counters from 4 to 5. *)
Definition reaches_threshold (st : State) (ev : tcell.EventKey) : Prop :=
  (tcell.Key ev = tcell.KeyEscape ∧ escCount st = 4)
  ∨ (tcell.Key ev = tcell.KeyEnter ∧ enterCount st = 4)
  ∨ (tcell.Key ev = tcell.KeyRune ∧ tcell.Rune ev = 32
     ∧ spaceCount st = 4).

(** The lines that a run appends to the log: one per key event. *)
Definition entries_of (inputs : list (tcell.Event * Env)) : list string :=
  '(ev, env) ← inputs;
  match ev with
  | tcell.EvKey kev => [logLine (now env) kev]
  | _ => []
  end.

(** The last [c] elements of a list. *)
Definition lastn {A} (c : nat) (l : list A) : list A :=
  drop (length l - c) l.

(** A key code that [labelFromEvent] does not recognise: not a named key,
    not a rune, not a control code of a letter. *)
Definition unrecognised (k : Z) : Prop :=
  (k ∉ named_keys) ∧ (k ≠ tcell.KeyRune)
  ∧ ¬ (tcell.KeyCtrlA <= k <= tcell.KeyCtrlZ).

(** Checks by enumeration: [f] holds on the [n] integers from [i]. *)
Fixpoint all_from (f : Z → bool) (n : nat) (i : Z) : bool :=
  match n with
  | O => true
  | S n' => if f i then all_from f n' (i + 1) else false
  end.

Definition byte_ok (b : Z) : bool := (0 <=? b) && (b <? 256).

(** A continuation byte as [EncodeRune] writes it. *)
Definition cont_byte (x : Z) : Z := Z.lor 0x80 (Z.land (utf8.byte x) 0x3F).

(** The leading bytes of an encoding of 2, 3 and 4 bytes, as functions of
    the bits of the rune above the last continuation byte. *)
Definition lead2 (j : Z) : Z := Z.lor 0xC0 (utf8.byte j).
Definition lead3 (j : Z) : Z := Z.lor 0xE0 (utf8.byte (Z.shiftr j 6)).
Definition lead4 (j : Z) : Z := Z.lor 0xF0 (utf8.byte (Z.shiftr j 6)).

(** The leading byte [b0] announces [size] bytes and accepts [b1]. *)
Definition lead_ok (size : nat) (b0 b1 : Z) : bool :=
  byte_ok b0 && byte_ok b1 && (utf8.RuneSelf <=? b0) &&
  match utf8.first b0 with
  | Some (sz, lo, hi) => (sz =? size)%nat && (lo <=? b1) && (b1 <=? hi)
  | None => false
  end.

(** A byte sequence that is one ASCII byte, or starts with a byte outside
    ASCII and decodes as a single rune taking all of it. *)
Definition one_rune (bs : list Z) : Prop :=
  Forall (λ b, byte_ok b = true) bs
  ∧ ((∃ b, bs = [b] ∧ 0 <= b < 0x80)
     ∨ (∃ b0 t, bs = b0 :: t ∧ 0x80 <= b0
                ∧ (utf8.DecodeRune bs).2 = length bs)).

(** The [n]-th capital letter, counted from zero, as a string. *)
Definition capital (n : Z) : string :=
  String.substring (Z.to_nat n) 1 "ABCDEFGHIJKLMNOPQRSTUVWXYZ".

(** A run without its resize events, and two runs that end alike: both
    polling, both returned or both panicked, in the same state. *)
Definition is_resize (ev : tcell.Event) : bool :=
  match ev with tcell.EvResize => true | _ => false end.

Definition without_resizes (inputs : list (tcell.Event * Env))
  : list (tcell.Event * Env) :=
  List.filter (λ i, negb (is_resize i.1)) inputs.

Definition same_data (o1 o2 : Outcome) : Prop :=
  match o1, o2 with
  | Continue st1 _, Continue st2 _ => st1 = st2
  | Return st1, Return st2 => st1 = st2
  | Panic, Panic => True
  | _, _ => False
  end.

(** ** Vocabulary of the further properties *)

(** The number of key events of a run that satisfy [p]. *)
Definition count_keys (p : tcell.EventKey → bool)
    (inputs : list (tcell.Event * Env)) : Z :=
  Z.of_nat (length (List.filter
    (λ i, match i.1 with tcell.EvKey kev => p kev | _ => false end)
    inputs)).

(** The inputs of the three counters. *)
Definition is_escape (ev : tcell.EventKey) : bool :=
  tcell.Key ev =? tcell.KeyEscape.
Definition is_enter (ev : tcell.EventKey) : bool :=
  tcell.Key ev =? tcell.KeyEnter.
Definition is_space (ev : tcell.EventKey) : bool :=
  (tcell.Key ev =? tcell.KeyRune) && (tcell.Rune ev =? 32).

(** The CapsLock heuristic of the loop: an upper-case letter that came
    without the Shift modifier. *)
Definition caps_heuristic (ev : tcell.EventKey) : bool :=
  (tcell.Key ev =? tcell.KeyRune)
  && unicode_IsLetter (tcell.Rune ev) && unicode_IsUpper (tcell.Rune ev)
  && negb (has_mod (tcell.Modifiers ev) tcell.ModShift).

(** The labels of the keys of the layout. *)
Definition layout_labels : list string := Label <$> initKeys.

(** The columns a row of labels takes: each key is its label and two
    columns of padding, and is followed by a gap of one column. *)
Definition row_width (labels : list string) : Z :=
  foldr (λ L acc, len L + 3 + acc) 0 labels.

(** The calls of one kind among the calls on the screen, and the events of
    one kind among the inputs of a run. *)
Definition count_calls (p : tcell.ScreenCall → bool)
    (out : list tcell.ScreenCall) : nat :=
  length (List.filter p out).

Definition is_clear (c : tcell.ScreenCall) : bool :=
  match c with tcell.Clear => true | _ => false end.
Definition is_show (c : tcell.ScreenCall) : bool :=
  match c with tcell.Show => true | _ => false end.
Definition is_sync (c : tcell.ScreenCall) : bool :=
  match c with tcell.Sync => true | _ => false end.

Definition is_key (ev : tcell.Event) : bool :=
  match ev with tcell.EvKey _ => true | _ => false end.

Definition count_events (p : tcell.Event → bool)
    (inputs : list (tcell.Event * Env)) : nat :=
  length (List.filter (λ i, p i.1) inputs).

(** ** Inputs for the examples *)

(** Key events, and what an iteration observes at nine o'clock on a screen
    of a given size. *)
Definition key_event (k r m : Z) : tcell.EventKey :=
  {| tcell.Key := k; tcell.Rune := r; tcell.Modifiers := m |}.

Definition on_screen (w h : Z) : Env :=
  {| now := {| Hour := 9; Minute := 5; Second := 59 |};
     scrW := w; scrH := h |}.

Definition key_a : tcell.EventKey := key_event tcell.KeyRune 97 0.
Definition key_escape : tcell.EventKey := key_event tcell.KeyEscape 0 0.
Definition key_ctrl_c : tcell.EventKey := key_event 3 0 0.
Definition key_code_13 : tcell.EventKey := key_event 13 0 0.
Definition key_code_8 : tcell.EventKey := key_event 8 0 0.
Definition key_code_300 : tcell.EventKey := key_event 300 0 0.

(** Screens of 10 columns, with room for two and for four log lines. *)
Definition rows_38 : Env := on_screen 10 38.
Definition rows_40 : Env := on_screen 10 40.

(** A state with two lines in the log, and one with four Escape presses
    counted. *)
Definition two_lines : State :=
  {| logs := ["one"; "two"]; pressed := ∅; escCount := 0;
     enterCount := 0; spaceCount := 0 |}.

Definition four_escapes : State :=
  {| logs := []; pressed := ∅; escCount := 4; enterCount := 0;
     spaceCount := 0 |}.

(** An instance that knows the ASCII letters only; the examples use ASCII
    runes. *)
Definition ascii_IsUpper (r : Z) : bool := (65 <=? r) && (r <=? 90).
Definition ascii_IsLetter (r : Z) : bool :=
  ascii_IsUpper r || ((97 <=? r) && (r <=? 122)).

Definition ascii_tables : Unicode :=
  {| unicode_To_UpperCase := λ r, r;
     unicode_IsLetter := ascii_IsLetter;
     unicode_IsUpper := ascii_IsUpper |}.

(** More inputs for the examples: the capital [A] with and without the
    Shift modifier, a key in the first row of the layout, and a map with a
    mark that no key bears. *)
Definition key_A : tcell.EventKey := key_event tcell.KeyRune 65 0.
Definition key_shift_A : tcell.EventKey :=
  key_event tcell.KeyRune 65 tcell.ModShift.

Definition esc_key : Key :=
  {| Label := "Esc"; X := 0; Y := 0; W := 5; H := 3 |}.

Definition marked_unknown : gmap string bool := {[ "Key[300]" := true ]}.
Definition marked_esc : gmap string bool := {[ "Esc" := true ]}.

(** ** Machine integers and the layout *)

Lemma int_wrap_id z : - 2 ^ 63 <= z < 2 ^ 63 → int_wrap z = z.
Proof.
  intros Hz. unfold int_wrap.
  rewrite Z.mod_small by lia. lia.
Qed.

Lemma sepY_initKeys : sepY initKeys = Some 35.
Proof. vm_compute. reflexivity. Qed.

Lemma safeTrim_initKeys_some h l : is_Some (safeTrim initKeys h l).
Proof.
  unfold safeTrim. rewrite sepY_initKeys. cbn [mbind option_bind]. eauto.
Qed.

Lemma safeTrim_initKeys h l :
  0 <= h <= max_int →
  safeTrim initKeys h l =
  Some (if h - 35 - 1 <=? 0 then []
        else if h - 35 - 1 <? Z.of_nat (length l)
             then drop (Z.to_nat (Z.of_nat (length l) - (h - 35 - 1))) l
             else l).
Proof.
  unfold max_int. intros Hh. unfold safeTrim.
  rewrite sepY_initKeys. cbn [mbind option_bind].
  unfold int_sub. rewrite (int_wrap_id (h - 35)) by lia.
  rewrite int_wrap_id by lia. reflexivity.
Qed.

Lemma drawAll_initKeys w l p : is_Some (drawAll w initKeys l p).
Proof.
  unfold drawAll. rewrite sepY_initKeys. cbn [mbind option_bind]. eauto.
Qed.

(** ** The loop body, case by case *)

Lemma exitLogic_keeps st ev :
  logs (exitLogic st ev).1 = logs st ∧
  pressed (exitLogic st ev).1 = pressed st.
Proof.
  unfold exitLogic.
  repeat (case_match; simpl; try done).
Qed.

Lemma loop_body_key st ev env :
  ∃ l frame,
    safeTrim initKeys (scrH env) (logs st ++ [logLine (now env) ev]) = Some l
    ∧ drawAll (scrW env) initKeys l (markPressed (pressed st) ev) = Some frame
    ∧ loop_body initKeys st (tcell.EvKey ev) env =
      if (exitLogic st ev).2 then Return (exitLogic st ev).1
      else Continue {| logs := l;
                       pressed := markPressed (pressed st) ev;
                       escCount := escCount (exitLogic st ev).1;
                       enterCount := enterCount (exitLogic st ev).1;
                       spaceCount := spaceCount (exitLogic st ev).1 |}
                    (frame ++ [tcell.Show]).
Proof.
  destruct (safeTrim_initKeys_some (scrH env)
              (logs st ++ [logLine (now env) ev])) as [l Hl].
  destruct (drawAll_initKeys (scrW env) l (markPressed (pressed st) ev))
    as [frame Hf].
  exists l, frame. split; [done|]. split; [done|].
  unfold loop_body.
  destruct (exitLogic_keeps st ev) as [El Ep].
  destruct (exitLogic st ev) as [st1 ex]. cbn [fst snd] in *.
  destruct ex; [done|].
  rewrite El, Ep, Hl, Hf. done.
Qed.

Lemma loop_body_continue st ev env st' out :
  loop_body initKeys st (tcell.EvKey ev) env = Continue st' out →
  (exitLogic st ev).2 = false
  ∧ safeTrim initKeys (scrH env) (logs st ++ [logLine (now env) ev])
    = Some (logs st')
  ∧ pressed st' = markPressed (pressed st) ev
  ∧ escCount st' = escCount (exitLogic st ev).1
  ∧ enterCount st' = enterCount (exitLogic st ev).1
  ∧ spaceCount st' = spaceCount (exitLogic st ev).1
  ∧ ∃ frame,
      drawAll (scrW env) initKeys (logs st') (pressed st') = Some frame
             ∧ out = frame ++ [tcell.Show].
Proof.
  destruct (loop_body_key st ev env) as (l & frame & Hl & Hf & ->).
  destruct (exitLogic st ev).2; [done|].
  intros [= <- <-]. cbn [logs pressed escCount enterCount spaceCount].
  eauto 10.
Qed.

Lemma loop_body_return keys st ev env st' :
  loop_body keys st ev env = Return st' →
  ∃ kev, ev = tcell.EvKey kev ∧ exitLogic st kev = (st', true).
Proof.
  destruct ev as [kev| |]; unfold loop_body; [|done..].
  destruct (exitLogic st kev) as [st1 ex] eqn:E. destruct ex.
  - intros [= <-]. by exists kev.
  - repeat case_match; done.
Qed.

Lemma loop_body_no_panic st ev env : loop_body initKeys st ev env ≠ Panic.
Proof.
  destruct ev as [kev| |]; [|done..].
  destruct (loop_body_key st kev env) as (l & frame & _ & _ & ->).
  by destruct (exitLogic st kev).2.
Qed.

(** ** The log buffer *)

Lemma length_drop_last {A} (l : list A) (c : Z) :
  0 < c < Z.of_nat (length l) →
  Z.of_nat (length (drop (Z.to_nat (Z.of_nat (length l) - c)) l)) = c.
Proof. intros Hc. rewrite length_drop. lia. Qed.

(** C1.  After a key event that [main] handles on a screen of height
    [scrH], the log is no longer than [max 0 capacity], where
    [capacity = scrH - sepY - 1] and [sepY] is the row of the separator.
    When the capacity is zero or negative the log is empty; when the
    appended log is longer than a positive capacity, the log is its last
    [capacity] entries, in their order; otherwise it is the appended log. *)
Theorem log_bounded_by_capacity st ev env st' out :
  0 <= scrH env <= max_int →
  loop_body initKeys st (tcell.EvKey ev) env = Continue st' out →
  ∃ y, sepY initKeys = Some y ∧
    let capacity := scrH env - y - 1 in
    let appended := logs st ++ [logLine (now env) ev] in
    Z.of_nat (length (logs st')) <= Z.max 0 capacity
    ∧ (capacity <= 0 → logs st' = [])
    ∧ (0 < capacity < Z.of_nat (length appended) →
       logs st' =
         drop (Z.to_nat (Z.of_nat (length appended) - capacity)) appended
       ∧ Z.of_nat (length (logs st')) = capacity
       ∧ ∃ oldest, appended = oldest ++ logs st')
    ∧ (0 < capacity → Z.of_nat (length appended) <= capacity →
       logs st' = appended).
Proof.
  intros Hh Hstep. exists 35. split; [apply sepY_initKeys|].
  apply loop_body_continue in Hstep as (_ & Htrim & _).
  rewrite safeTrim_initKeys in Htrim by done.
  injection Htrim as <-.
  set (appended := logs st ++ [logLine (now env) ev]).
  cbv zeta.
  destruct (Z.leb_spec (scrH env - 35 - 1) 0) as [Hle|Hpos].
  { repeat split; intros; try done; try lia. simpl. lia. }
  destruct (Z.ltb_spec (scrH env - 35 - 1) (Z.of_nat (length appended)))
    as [Hlt|Hge].
  - repeat split; intros; try lia.
    + rewrite length_drop_last; lia.
    + apply length_drop_last. lia.
    + eexists. symmetry. apply take_drop.
  - repeat split; intros; try lia.
Qed.

(** ** The exit counters *)

Lemma exitLogic_counters st ev :
  counters_below st →
  let st' := (exitLogic st ev).1 in
  (escCount st' =
     if tcell.Key ev =? tcell.KeyEscape then escCount st + 1
     else escCount st)
  ∧ (enterCount st' =
     if tcell.Key ev =? tcell.KeyEnter then enterCount st + 1
     else enterCount st)
  ∧ (spaceCount st' =
     if (tcell.Key ev =? tcell.KeyRune) && (tcell.Rune ev =? 32)
     then spaceCount st + 1 else spaceCount st)
  ∧ ((exitLogic st ev).2 = true ↔
     escCount st' = 5 ∨ enterCount st' = 5 ∨ spaceCount st' = 5).
Proof.
  intros (He & Hn & Hs). unfold exitLogic, int_add. cbv zeta.
  rewrite !int_wrap_id by lia.
  unfold tcell.KeyEscape, tcell.KeyEnter, tcell.KeyRune.
  destruct (Z.eqb_spec (tcell.Key ev) 27) as [Hk1|Hk1];
  destruct (Z.eqb_spec (tcell.Key ev) 13) as [Hk2|Hk2];
  destruct (Z.eqb_spec (tcell.Key ev) 256) as [Hk3|Hk3];
  destruct (Z.eqb_spec (tcell.Rune ev) 32) as [Hr|Hr];
  try lia; cbn; rewrite ?Z.leb_le; repeat split; try lia; try done;
  intros [|[|]]; lia.
Qed.

Lemma loop_body_counters_below st ev env st' out :
  counters_below st →
  loop_body initKeys st ev env = Continue st' out →
  counters_below st'.
Proof.
  intros Hinv. destruct ev as [kev| |]; [|by intros [= <- _]..].
  intros Hstep. unfold counters_below at 1.
  apply loop_body_continue in Hstep
    as (Hex & _ & _ & -> & -> & -> & _).
  destruct (exitLogic_counters st kev Hinv) as (He & Hn & Hs & Hiff).
  cbv zeta in *. destruct Hinv as (Ie & In & Is).
  assert (¬ (escCount (exitLogic st kev).1 = 5
             ∨ enterCount (exitLogic st kev).1 = 5
             ∨ spaceCount (exitLogic st kev).1 = 5)) as Hno.
  { rewrite <- Hiff, Hex. done. }
  rewrite He, Hn, Hs in *.
  repeat case_match; lia.
Qed.

Lemma main_loop_counters_below inputs : ∀ st st' out,
  counters_below st →
  main_loop st inputs = Continue st' out →
  counters_below st'.
Proof.
  induction inputs as [|[ev env] rest IH]; intros st st' out Hinv.
  - by intros [= <- _].
  - cbn [main_loop].
    destruct (loop_body initKeys st ev env) as [st1 out1| |] eqn:E; [|done..].
    destruct (main_loop st1 rest) as [st2 out2| |] eqn:E2; [|done..].
    intros [= <- _]. eapply IH; [|done].
    by eapply loop_body_counters_below.
Qed.

Lemma reachable_counters_below st : reachable st → counters_below st.
Proof.
  intros (inputs & out & Hrun).
  eapply main_loop_counters_below; [|done].
  unfold counters_below, initial. cbn. lia.
Qed.

(** C3.  In a state [main] can be in when it polls, every counter is below
    5.  Whatever the next event, the iteration ends in a state [st'] where
    no counter has decreased.  An Escape key adds one to the Escape
    counter, an Enter key adds one to the Enter counter and the rune of the
    space bar adds one to the space counter; a counter that changed was
    incremented by one, by its own input, so that every other event leaves
    it as it was.  [main] returns exactly when a counter is 5 in [st']:
    never before, the counters being below 5 at every poll. *)
Theorem exit_counters_monotone_threshold st ev env :
  reachable st →
  counters_below st ∧
  ∃ st', outcome_state (loop_body initKeys st ev env) = Some st'
    ∧ escCount st <= escCount st'
    ∧ enterCount st <= enterCount st'
    ∧ spaceCount st <= spaceCount st'
    ∧ (∀ kev, ev = tcell.EvKey kev → tcell.Key kev = tcell.KeyEscape →
       escCount st' = escCount st + 1)
    ∧ (∀ kev, ev = tcell.EvKey kev → tcell.Key kev = tcell.KeyEnter →
       enterCount st' = enterCount st + 1)
    ∧ (∀ kev, ev = tcell.EvKey kev → tcell.Key kev = tcell.KeyRune →
       tcell.Rune kev = 32 → spaceCount st' = spaceCount st + 1)
    ∧ (escCount st' ≠ escCount st →
       escCount st' = escCount st + 1
       ∧ ∃ kev, ev = tcell.EvKey kev ∧ tcell.Key kev = tcell.KeyEscape)
    ∧ (enterCount st' ≠ enterCount st →
       enterCount st' = enterCount st + 1
       ∧ ∃ kev, ev = tcell.EvKey kev ∧ tcell.Key kev = tcell.KeyEnter)
    ∧ (spaceCount st' ≠ spaceCount st →
       spaceCount st' = spaceCount st + 1
       ∧ ∃ kev, ev = tcell.EvKey kev ∧ tcell.Key kev = tcell.KeyRune
                ∧ tcell.Rune kev = 32)
    ∧ (returns (loop_body initKeys st ev env) ↔
       escCount st' = 5 ∨ enterCount st' = 5 ∨ spaceCount st' = 5).
Proof.
  intros Hreach. pose proof (reachable_counters_below st Hreach) as Hinv.
  split; [done|].
  destruct ev as [kev| |].
  2,3: exists st; cbn; destruct Hinv as (? & ? & ?);
       repeat split; try lia; try done; intros [|[|]]; lia.
  destruct (exitLogic_counters st kev Hinv) as (He & Hn & Hs & Hiff).
  cbv zeta in *.
  destruct (loop_body_key st kev env) as (l & frame & _ & _ & ->).
  destruct (exitLogic st kev) as [st1 ex]. cbn [fst snd] in *.
  assert (∃ st', outcome_state
            (if ex then Return st1
             else Continue
                    {| logs := l; pressed := markPressed (pressed st) kev;
                       escCount := escCount st1;
                       enterCount := enterCount st1;
                       spaceCount := spaceCount st1 |}
                    (frame ++ [tcell.Show])) = Some st'
          ∧ escCount st' = escCount st1 ∧ enterCount st' = enterCount st1
          ∧ spaceCount st' = spaceCount st1
          ∧ (returns (if ex then Return st1
                      else Continue
                    {| logs := l; pressed := markPressed (pressed st) kev;
                       escCount := escCount st1;
                       enterCount := enterCount st1;
                       spaceCount := spaceCount st1 |}
                    (frame ++ [tcell.Show])) ↔ ex = true))
    as (st' & Hst' & Ee & En & Es & Hret).
  { destruct ex; eexists; cbn; repeat split; try done. }
  exists st'. split; [done|]. rewrite Hret, Hiff, Ee, En, Es, He, Hn, Hs.
  unfold tcell.KeyEscape, tcell.KeyEnter, tcell.KeyRune.
  destruct Hinv as (Ie & In & Is).
  destruct (Z.eqb_spec (tcell.Key kev) 27) as [Hk1|Hk1];
  destruct (Z.eqb_spec (tcell.Key kev) 13) as [Hk2|Hk2];
  destruct (Z.eqb_spec (tcell.Key kev) 256) as [Hk3|Hk3];
  destruct (Z.eqb_spec (tcell.Rune kev) 32) as [Hr|Hr];
  try lia; cbn [andb];
  (split; [lia|]); (split; [lia|]); (split; [lia|]);
  (split; [intros kev' [= <-] ?; lia|]);
  (split; [intros kev' [= <-] ?; lia|]);
  (split; [intros kev' [= <-] ? ?; lia|]);
  repeat split; try lia; try done; eauto.
Qed.

(** ** The pressed set *)

Lemma elem_of_pressed_set (m : gmap string bool) l :
  l ∈ pressed_set m ↔ is_pressed m l = true.
Proof.
  unfold pressed_set, is_pressed. rewrite elem_of_dom. split.
  - intros [b Hb]. apply map_lookup_filter_Some in Hb as [-> Hb].
    cbn in Hb. by subst.
  - destruct (m !! l) as [b|] eqn:E; cbn; [|done]. intros ->.
    exists true. by apply map_lookup_filter_Some.
Qed.

Lemma is_pressed_insert (m : gmap string bool) k l :
  is_pressed (<[k := true]> m) l = true ↔ k = l ∨ is_pressed m l = true.
Proof.
  unfold is_pressed. destruct (decide (k = l)) as [->|Hne].
  - rewrite lookup_insert_eq. cbn. split; auto.
  - rewrite lookup_insert_ne by done. split; [auto|]. by intros [?|?].
Qed.

Lemma pressed_set_insert (m : gmap string bool) k :
  pressed_set (<[k := true]> m) = {[k]} ∪ pressed_set m.
Proof.
  apply set_eq. intros l.
  rewrite elem_of_union, elem_of_singleton, !elem_of_pressed_set.
  rewrite is_pressed_insert. split; intros [?|?]; auto.
Qed.

Lemma markPressed_grows p ev :
  pressed_set p ⊆ pressed_set (markPressed p ev)
  ∧ dom p ⊆ dom (markPressed p ev).
Proof.
  unfold markPressed.
  repeat case_match; rewrite ?pressed_set_insert, ?dom_insert_L;
    split; set_solver.
Qed.

Lemma loop_body_pressed keys st ev env st' :
  outcome_state (loop_body keys st ev env) = Some st' →
  pressed st' = pressed st
  ∨ ∃ kev, ev = tcell.EvKey kev ∧ ¬ returns (loop_body keys st ev env)
           ∧ pressed st' = markPressed (pressed st) kev.
Proof.
  destruct ev as [kev| |]; unfold loop_body;
    [|cbn; intros Heq; simplify_eq; by left..].
  destruct (exitLogic_keeps st kev) as [_ Ep].
  destruct (exitLogic st kev) as [st1 ex]. cbn [fst snd] in Ep.
  destruct ex; [cbn; intros Heq; simplify_eq; by left|].
  repeat case_match; cbn; intros Heq; simplify_eq; right; exists kev;
    cbn; rewrite Ep; auto.
Qed.

Lemma loop_body_pressed_grows keys st ev env st' :
  outcome_state (loop_body keys st ev env) = Some st' →
  pressed_set (pressed st) ⊆ pressed_set (pressed st')
  ∧ dom (pressed st) ⊆ dom (pressed st').
Proof.
  intros Hout. apply loop_body_pressed in Hout as [->|(kev & _ & _ & ->)].
  - done.
  - apply markPressed_grows.
Qed.

Lemma main_trace_last inputs : ∀ st st' out,
  main_loop st inputs = Continue st' out →
  last (main_trace st inputs) = Some st'.
Proof.
  induction inputs as [|[ev env] rest IH]; intros st st' out.
  - cbn. intros Heq. by simplify_eq.
  - cbn [main_loop main_trace].
    destruct (loop_body initKeys st ev env) as [st1 out1| |]; [|done..].
    destruct (main_loop st1 rest) as [st2 out2| |] eqn:E; [|done..].
    intros Heq. simplify_eq.
    specialize (IH _ _ _ E). rewrite last_cons, IH. done.
Qed.

(** C4.  Along any run of [main], from any state, the set of pressed labels
    at a step is included in the set at the next step, and so are the keys
    of the map: nothing is ever removed. *)
Theorem pressed_only_grows inputs : ∀ st (t : nat) s s',
  main_trace st inputs !! t = Some s →
  main_trace st inputs !! S t = Some s' →
  pressed_set (pressed s) ⊆ pressed_set (pressed s')
  ∧ dom (pressed s) ⊆ dom (pressed s').
Proof.
  induction inputs as [|[ev env] rest IH]; intros st t s s'.
  - destruct t; done.
  - cbn [main_trace].
    destruct (loop_body initKeys st ev env) as [st1 out1|st1|] eqn:E.
    + destruct t as [|t].
      * destruct rest as [|[??] ?]; cbn; intros [= <-] [= <-];
          apply (loop_body_pressed_grows initKeys st ev env);
          by rewrite E.
      * cbn [lookup list_lookup]. apply IH.
    + destruct t as [|[|t]]; [|done..].
      cbn. intros [= <-] [= <-].
      apply (loop_body_pressed_grows initKeys st ev env). by rewrite E.
    + destruct t; done.
Qed.

(** ** Return from [main] *)

Lemma return_keeps_state keys st ev env st' :
  loop_body keys st ev env = Return st' →
  logs st' = logs st ∧ pressed st' = pressed st.
Proof.
  intros Hret. apply loop_body_return in Hret as (kev & -> & Hex).
  destruct (exitLogic_keeps st kev) as [El Ep].
  rewrite Hex in El, Ep. done.
Qed.

(** C9.  On the key event that takes a counter from 4 to 5, the iteration
    returns from [main] with the log and the pressed map as they were:
    the event is neither marked nor logged, and nothing is drawn. *)
Theorem termination_before_mutation keys st ev env :
  reaches_threshold st ev →
  ∃ st', loop_body keys st (tcell.EvKey ev) env = Return st'
    ∧ pressed st' = pressed st
    ∧ logs st' = logs st.
Proof.
  intros Hthr.
  assert (∃ st', exitLogic st ev = (st', true)) as [st' Hex].
  { unfold exitLogic, reaches_threshold in *.
    unfold tcell.KeyEscape, tcell.KeyEnter, tcell.KeyRune in *.
    destruct Hthr as [[-> ->]|[[-> ->]|(-> & -> & ->)]]; cbn; eauto. }
  exists st'.
  assert (loop_body keys st (tcell.EvKey ev) env = Return st') as Hret.
  { unfold loop_body. by rewrite Hex. }
  split; [done|].
  apply return_keeps_state in Hret as [? ?]. done.
Qed.

(** ** The sliding window over a run *)

Lemma length_lastn {A} c (l : list A) : length (lastn c l) = min c (length l).
Proof. unfold lastn. rewrite length_drop. lia. Qed.

Lemma lastn_all {A} c (l : list A) : (length l <= c)%nat → lastn c l = l.
Proof.
  intros Hc. unfold lastn. by replace (length l - c)%nat with 0%nat by lia.
Qed.

Lemma lastn_app_lastn {A} c (a b : list A) :
  lastn c (lastn c a ++ b) = lastn c (a ++ b).
Proof.
  destruct (decide (length a <= c)%nat) as [Hle|Hgt].
  { by rewrite (lastn_all c a). }
  unfold lastn at 1 3. rewrite !length_app, length_lastn.
  replace (c `min` length a + length b - c)%nat with (length b) by lia.
  replace (length a + length b - c)%nat
    with ((length a - c) + length b)%nat by lia.
  rewrite <- drop_drop. rewrite (drop_app_le a b) by lia. done.
Qed.

Lemma safeTrim_lastn h l :
  36 <= h <= max_int →
  safeTrim initKeys h l = Some (lastn (Z.to_nat (h - 36)) l).
Proof.
  intros Hh. rewrite safeTrim_initKeys by lia. f_equal. unfold lastn.
  destruct (Z.leb_spec (h - 35 - 1) 0).
  { replace (Z.to_nat (h - 36)) with 0%nat by lia.
    rewrite Nat.sub_0_r, drop_all. done. }
  destruct (Z.ltb_spec (h - 35 - 1) (Z.of_nat (length l))).
  - f_equal. lia.
  - replace (length l - Z.to_nat (h - 36))%nat with 0%nat by lia. done.
Qed.

Lemma main_loop_logs h inputs : ∀ st st' out,
  36 <= h <= max_int →
  Forall (λ i, scrH i.2 = h) inputs →
  (length (logs st) <= Z.to_nat (h - 36))%nat →
  main_loop st inputs = Continue st' out →
  logs st' = lastn (Z.to_nat (h - 36)) (logs st ++ entries_of inputs).
Proof.
  induction inputs as [|[ev env] rest IH]; intros st st' out Hh Hall Hlen.
  - cbn. intros Heq. simplify_eq. rewrite app_nil_r. by rewrite lastn_all.
  - cbn [main_loop].
    destruct (loop_body initKeys st ev env) as [st1 out1| |] eqn:E; [|done..].
    destruct (main_loop st1 rest) as [st2 out2| |] eqn:E2; [|done..].
    intros Heq. simplify_eq.
    apply Forall_cons in Hall as [Hhd Hall]. cbn in Hhd.
    unfold entries_of. cbn [mbind list_bind]. fold (entries_of rest).
    destruct ev as [kev| |].
    + apply loop_body_continue in E as (_ & Htrim & _).
      rewrite Hhd, safeTrim_lastn in Htrim by done.
      injection Htrim as Htrim.
      rewrite (IH st1 st' out2 Hh Hall);
        [|rewrite <- Htrim, length_lastn; lia|done].
      rewrite <- Htrim, lastn_app_lastn.
      by rewrite <- app_assoc.
    + cbn in E. simplify_eq. cbn. by eapply IH.
    + cbn in E. simplify_eq. cbn. by eapply IH.
Qed.

Lemma separator_in_frame w l p frame x :
  drawAll w initKeys l p = Some frame →
  0 <= x < w →
  tcell.SetContent x 35 45 tcell.StyleDefault ∈ frame.
Proof.
  unfold drawAll. rewrite sepY_initKeys. cbn [mbind option_bind].
  intros Heq Hx. apply (inj Some) in Heq. subst frame.
  apply elem_of_cons. right. apply elem_of_app. right.
  apply elem_of_app. left. unfold draw_separator.
  apply list_elem_of_fmap. exists x. split; [done|].
  apply elem_of_seqZ. lia.
Qed.

(** C2 (as the code has it).  For the fixed layout the keyboard occupies
    the rows 0..34, the separator is drawn at row 35, and on a screen of
    height [height] the log holds [height - 36] lines: a run that appends
    [height - 36 + 3] lines to the empty log at that height ends with
    exactly [height - 36] of them, the first three dropped. *)
Theorem fixed_layout_capacity height inputs st' out :
  36 <= height <= max_int →
  Forall (λ i, scrH i.2 = height) inputs →
  Z.of_nat (length (entries_of inputs)) = height - 36 + 3 →
  main_loop initial inputs = Continue st' out →
  Forall (λ k, 0 <= Y k ∧ Y k + H k - 1 <= 34) initKeys
  ∧ sepY initKeys = Some 35
  ∧ (∀ w l p frame x, drawAll w initKeys l p = Some frame → 0 <= x < w →
       tcell.SetContent x 35 45 tcell.StyleDefault ∈ frame)
  ∧ (∀ l, safeTrim initKeys height l
          = Some (lastn (Z.to_nat (height - 36)) l))
  ∧ logs st' = drop 3 (entries_of inputs)
  ∧ Z.of_nat (length (logs st')) = height - 36.
Proof.
  intros Hh Hall Hlen Hrun.
  split. { apply (bool_decide_unpack _). vm_compute. exact I. }
  split; [apply sepY_initKeys|].
  split. { intros. by eapply separator_in_frame. }
  split. { intros. by apply safeTrim_lastn. }
  apply (main_loop_logs height) in Hrun; [|done|done|cbn; lia].
  cbn [logs initial app] in Hrun. rewrite Hrun.
  unfold lastn.
  replace (length (entries_of inputs) - Z.to_nat (height - 36))%nat
    with 3%nat by lia.
  split; [done|]. rewrite length_drop. lia.
Qed.

(** ** Strings *)

Lemma list_ascii_app a b :
  String.list_ascii_of_string (a +:+ b)
  = String.list_ascii_of_string a ++ String.list_ascii_of_string b.
Proof. induction a as [|c a IH]; simpl; [done|]. by rewrite IH. Qed.

Lemma string_app_inj_r a b c : a +:+ c = b +:+ c → a = b.
Proof.
  intros Heq.
  apply (f_equal String.list_ascii_of_string) in Heq.
  rewrite !list_ascii_app in Heq.
  apply app_inj_2 in Heq as [Heq _]; [|done].
  apply (f_equal String.string_of_list_ascii) in Heq.
  by rewrite !String.string_of_list_ascii_of_string in Heq.
Qed.

Lemma synthetic_label_inj k k' :
  "Key[" +:+ fmt_d k +:+ "]" = "Key[" +:+ fmt_d k' +:+ "]" → k = k'.
Proof.
  intros Heq. apply String.app_inj in Heq.
  apply string_app_inj_r in Heq. by apply pretty_Z_inj in Heq.
Qed.

(** ** Classification *)

Lemma labelFromEvent_unrecognised ev :
  unrecognised (tcell.Key ev) →
  labelFromEvent ev = "Key[" +:+ fmt_d (tcell.Key ev) +:+ "]".
Proof.
  intros (Hnamed & Hrune & Hctrl).
  unfold named_keys in Hnamed. rewrite !not_elem_of_cons in Hnamed.
  destruct_and!.
  unfold labelFromEvent, in_ctrl_range. cbv zeta. cbn [existsb].
  repeat match goal with
  | Hne : tcell.Key ev ≠ ?c |- _ =>
    apply Z.eqb_neq in Hne; rewrite Hne; clear Hne
  end.
  cbn [orb].
  destruct (Z.leb_spec tcell.KeyCtrlA (tcell.Key ev));
    destruct (Z.leb_spec (tcell.Key ev) tcell.KeyCtrlZ);
    cbn [andb]; try done. lia.
Qed.

Lemma exitLogic_unrecognised st ev :
  unrecognised (tcell.Key ev) → exitLogic st ev = (st, false).
Proof.
  intros (Hnamed & Hrune & _).
  unfold named_keys in Hnamed. rewrite !not_elem_of_cons in Hnamed.
  destruct_and!.
  unfold exitLogic. cbv zeta.
  repeat match goal with
  | Hne : tcell.Key ev ≠ ?c |- _ =>
    apply Z.eqb_neq in Hne; rewrite ?Hne; clear Hne
  end.
  done.
Qed.

Lemma markPressed_label p ev :
  is_pressed (markPressed p ev) (labelFromEvent ev) = true.
Proof.
  unfold markPressed. cbv zeta.
  repeat case_match; rewrite ?is_pressed_insert; auto 10.
Qed.

(** C6.  A key event whose code is no named key, not a rune and no control
    code of a letter gets the label ["Key[" code "]"], which is not empty
    and from which the code can be read back; [main] goes on after the
    event with the three counters unchanged and the label marked. *)
Theorem unrecognised_key_is_labelled st ev env :
  unrecognised (tcell.Key ev) →
  labelFromEvent ev = "Key[" +:+ fmt_d (tcell.Key ev) +:+ "]"
  ∧ labelFromEvent ev ≠ EmptyString
  ∧ (∀ k, labelFromEvent ev = "Key[" +:+ fmt_d k +:+ "]" →
          k = tcell.Key ev)
  ∧ ∃ st' out,
      loop_body initKeys st (tcell.EvKey ev) env = Continue st' out
      ∧ escCount st' = escCount st
      ∧ enterCount st' = enterCount st
      ∧ spaceCount st' = spaceCount st
      ∧ is_pressed (pressed st') (labelFromEvent ev) = true.
Proof.
  intros Hun.
  pose proof (labelFromEvent_unrecognised ev Hun) as Hlabel.
  split; [done|]. split; [by rewrite Hlabel|].
  split. { intros k Hk. rewrite Hlabel in Hk. symmetry.
           by apply synthetic_label_inj. }
  destruct (loop_body_key st ev env) as (l & frame & _ & _ & Hbody).
  rewrite (exitLogic_unrecognised st ev Hun) in Hbody. cbn [fst snd] in Hbody.
  eexists _, _. split; [exact Hbody|]. cbn.
  repeat split; try done. apply markPressed_label.
Qed.

Lemma markPressed_ctrl p ev :
  has_mod (tcell.Modifiers ev) tcell.ModCtrl || in_ctrl_range (tcell.Key ev)
    = true →
  is_pressed (markPressed p ev) "Ctrl" = true.
Proof.
  intros Hc. unfold markPressed. cbv zeta. rewrite Hc.
  repeat case_match; rewrite ?is_pressed_insert; auto 10.
Qed.

Lemma loop_body_marks st ev env st' out :
  loop_body initKeys st (tcell.EvKey ev) env = Continue st' out →
  is_pressed (pressed st') (labelFromEvent ev) = true
  ∧ (in_ctrl_range (tcell.Key ev) = true →
     is_pressed (pressed st') "Ctrl" = true).
Proof.
  intros Hstep. apply loop_body_continue in Hstep as (_ & _ & -> & _).
  split; [apply markPressed_label|].
  intros Hr. apply markPressed_ctrl. rewrite Hr. apply orb_true_r.
Qed.

(** C10.  The control codes that are also named keys are labelled as the
    named key, not as the letter: code 13 is ["Enter"] (the letter would be
    ["M"]) and counts as an Enter press, code 8 is ["Backspace"] (not
    ["H"]) and code 9 is ["Tab"] (not ["I"]).  The three codes are in the
    control-code range, so that an event [main] handles marks ["Ctrl"]
    besides its label. *)
Theorem control_codes_of_named_keys st ev env :
  reachable st →
  (tcell.Key ev = 13 →
     tcell.KeyEnter = 13
     ∧ labelFromEvent ev = "Enter"
     ∧ string_of_rune (65 + (13 - tcell.KeyCtrlA)) = "M"
     ∧ (∃ st', outcome_state (loop_body initKeys st (tcell.EvKey ev) env)
               = Some st'
               ∧ enterCount st' = enterCount st + 1)
     ∧ ∀ st' out,
         loop_body initKeys st (tcell.EvKey ev) env = Continue st' out →
         is_pressed (pressed st') "Enter" = true
         ∧ is_pressed (pressed st') "Ctrl" = true)
  ∧ (tcell.Key ev = 8 →
     tcell.KeyBackspace = 8
     ∧ labelFromEvent ev = "Backspace"
     ∧ string_of_rune (65 + (8 - tcell.KeyCtrlA)) = "H"
     ∧ ∃ st' out,
         loop_body initKeys st (tcell.EvKey ev) env = Continue st' out
         ∧ is_pressed (pressed st') "Backspace" = true
         ∧ is_pressed (pressed st') "Ctrl" = true)
  ∧ (tcell.Key ev = 9 →
     tcell.KeyTab = 9
     ∧ labelFromEvent ev = "Tab"
     ∧ string_of_rune (65 + (9 - tcell.KeyCtrlA)) = "I"
     ∧ ∃ st' out,
         loop_body initKeys st (tcell.EvKey ev) env = Continue st' out
         ∧ is_pressed (pressed st') "Tab" = true
         ∧ is_pressed (pressed st') "Ctrl" = true).
Proof.
  intros Hreach. pose proof (reachable_counters_below st Hreach) as Hinv.
  destruct ev as [k r m]. cbn [tcell.Key].
  split; [|split]; intros ->.
  - split; [done|]. split; [done|]. split; [done|]. split.
    + destruct (exitLogic_counters st (tcell.Build_EventKey 13 r m) Hinv)
        as (_ & Hn & _).
      cbv zeta in Hn. cbn in Hn.
      destruct (loop_body_key st (tcell.Build_EventKey 13 r m) env)
        as (l & frame & _ & _ & ->).
      destruct (exitLogic st _).2; eexists; (split; [done|]); exact Hn.
    + intros st' out Hstep. apply loop_body_marks in Hstep as [Hl Hc].
      split; [exact Hl|]. by apply Hc.
  - split; [done|]. split; [done|]. split; [done|].
    destruct (loop_body_key st (tcell.Build_EventKey 8 r m) env)
      as (l & frame & _ & _ & Hbody).
    change (exitLogic st (tcell.Build_EventKey 8 r m)) with (st, false)
      in Hbody.
    eexists _, _. split; [exact Hbody|].
    apply loop_body_marks in Hbody as [Hl Hc]. split; [exact Hl|].
    by apply Hc.
  - split; [done|]. split; [done|]. split; [done|].
    destruct (loop_body_key st (tcell.Build_EventKey 9 r m) env)
      as (l & frame & _ & _ & Hbody).
    change (exitLogic st (tcell.Build_EventKey 9 r m)) with (st, false)
      in Hbody.
    eexists _, _. split; [exact Hbody|].
    apply loop_body_marks in Hbody as [Hl Hc]. split; [exact Hl|].
    by apply Hc.
Qed.

(** ** Resize *)

Lemma drawAll_starts_with_clear w keys l p frame :
  drawAll w keys l p = Some frame → ∃ rest, frame = tcell.Clear :: rest.
Proof.
  unfold drawAll. destruct (sepY keys) as [y|]; [|done].
  cbn [mbind option_bind]. intros Heq. apply (inj Some) in Heq.
  subst frame. eauto.
Qed.

Lemma resizes_transparent inputs : ∀ st,
  same_data (main_loop st inputs) (main_loop st (without_resizes inputs)).
Proof.
  induction inputs as [|[ev env] rest IH]; intros st; [done|].
  destruct ev as [kev| |].
  - cbn [without_resizes List.filter is_resize negb fst main_loop].
    fold (without_resizes rest).
    destruct (loop_body initKeys st (tcell.EvKey kev) env)
      as [st1 out1|st1|]; [|done..].
    specialize (IH st1).
    destruct (main_loop st1 rest), (main_loop st1 (without_resizes rest));
      done.
  - cbn [without_resizes List.filter is_resize negb fst main_loop loop_body].
    fold (without_resizes rest).
    specialize (IH st).
    destruct (main_loop st rest), (main_loop st (without_resizes rest));
      done.
  - cbn [without_resizes List.filter is_resize negb fst main_loop].
    fold (without_resizes rest). cbn [loop_body].
    specialize (IH st).
    destruct (main_loop st rest), (main_loop st (without_resizes rest));
      done.
Qed.

(** C8 (as the code has it).  A resize event changes nothing in the state
    of [main], and the only call made on the screen is [Sync]: the frame is
    not drawn again from the state and the log is not trimmed to the new
    height.  A run ends in the same state with and without its resize
    events.  The trim and the frame come with the next key event that
    [main] handles: its log is trimmed at the height observed then, and
    the frame is drawn from the trimmed log and the new pressed map. *)
Theorem resize_only_syncs st env :
  loop_body initKeys st tcell.EvResize env = Continue st [tcell.Sync]
  ∧ (∀ inputs,
       same_data (main_loop st inputs)
                 (main_loop st (without_resizes inputs)))
  ∧ ∀ kev, ∃ l frame,
      safeTrim initKeys (scrH env) (logs st ++ [logLine (now env) kev])
        = Some l
      ∧ drawAll (scrW env) initKeys l (markPressed (pressed st) kev)
        = Some frame
      ∧ loop_body initKeys st (tcell.EvKey kev) env =
        if (exitLogic st kev).2 then Return (exitLogic st kev).1
        else Continue {| logs := l;
                         pressed := markPressed (pressed st) kev;
                         escCount := escCount (exitLogic st kev).1;
                         enterCount := enterCount (exitLogic st kev).1;
                         spaceCount := spaceCount (exitLogic st kev).1 |}
                      (frame ++ [tcell.Show]).
Proof.
  split; [done|].
  split; [intros inputs; apply resizes_transparent|].
  intros kev. apply loop_body_key.
Qed.

(** ** UTF-8: an encoded rune decodes as one rune *)

Lemma all_from_spec f n : ∀ i,
  all_from f n i = true → ∀ k, i <= k < i + Z.of_nat n → f k = true.
Proof.
  induction n as [|n IH]; intros i Hall k Hk; [lia|].
  cbn [all_from] in Hall. destruct (f i) eqn:Hi; [|done].
  destruct (decide (k = i)) as [->|Hne]; [done|].
  apply (IH (i + 1)); [done|lia].
Qed.

Lemma byte_small x : 0 <= x < 256 → utf8.byte x = x.
Proof.
  intros Hx. unfold utf8.byte. change 255 with (Z.ones 8).
  rewrite Z.land_ones by lia. apply Z.mod_small. lia.
Qed.

Lemma byte_range x : 0 <= utf8.byte x < 256.
Proof.
  unfold utf8.byte. change 255 with (Z.ones 8).
  rewrite Z.land_ones by lia. apply Z.mod_pos_bound. lia.
Qed.

Lemma cont_byte_range x : 0x80 <= cont_byte x <= 0xBF.
Proof.
  unfold cont_byte. change 63 with (Z.ones 6).
  rewrite Z.land_ones by lia.
  assert (0 <= utf8.byte x mod 2 ^ 6 < 64) as Hm
    by (apply Z.mod_pos_bound; lia).
  revert Hm. generalize (utf8.byte x mod 2 ^ 6). intros y Hy.
  assert (all_from (λ y, (128 <=? Z.lor 128 y) && (Z.lor 128 y <=? 191))
                   64 0 = true) as Hall by (vm_compute; reflexivity).
  pose proof (all_from_spec _ _ _ Hall y ltac:(lia)) as Hc. cbv beta in Hc.
  apply andb_true_iff in Hc as [?%Z.leb_le ?%Z.leb_le]. lia.
Qed.

Lemma cont_byte_ok x :
  byte_ok (cont_byte x) = true ∧ utf8.cont (cont_byte x) = true.
Proof.
  pose proof (cont_byte_range x). unfold byte_ok, utf8.cont.
  split; apply andb_true_iff; split;
    first [apply Z.leb_le | apply Z.ltb_lt]; lia.
Qed.

Lemma lead_ok_inv size b0 b1 :
  lead_ok size b0 b1 = true →
  byte_ok b0 = true ∧ byte_ok b1 = true ∧ 0x80 <= b0
  ∧ (b0 <? utf8.RuneSelf) = false
  ∧ ∃ lo hi, utf8.first b0 = Some (size, lo, hi)
             ∧ (b1 <? lo) || (hi <? b1) = false.
Proof.
  unfold lead_ok. rewrite !andb_true_iff. intros [[[Hb0 Hb1] Hself] Hfirst].
  apply Z.leb_le in Hself. unfold utf8.RuneSelf in *.
  repeat split; try done. { apply Z.ltb_ge. lia. }
  destruct (utf8.first b0) as [[[sz lo] hi]|]; [|done].
  rewrite !andb_true_iff in Hfirst. destruct Hfirst as [[Hsz Hlo] Hhi].
  apply Nat.eqb_eq in Hsz as ->. apply Z.leb_le in Hlo, Hhi.
  exists lo, hi. split; [done|].
  apply orb_false_iff. split; apply Z.ltb_ge; lia.
Qed.

Lemma DecodeRune_2 b0 b1 t :
  lead_ok 2 b0 b1 = true → (utf8.DecodeRune (b0 :: b1 :: t)).2 = 2%nat.
Proof.
  intros (_ & _ & _ & Hself & lo & hi & Hfirst & Hacc)%lead_ok_inv.
  unfold utf8.DecodeRune. rewrite Hself, Hfirst, Hacc. done.
Qed.

Lemma DecodeRune_3 b0 b1 b2 t :
  lead_ok 3 b0 b1 = true → utf8.cont b2 = true →
  (utf8.DecodeRune (b0 :: b1 :: b2 :: t)).2 = 3%nat.
Proof.
  intros (_ & _ & _ & Hself & lo & hi & Hfirst & Hacc)%lead_ok_inv Hc2.
  unfold utf8.DecodeRune. rewrite Hself, Hfirst, Hacc, Hc2. done.
Qed.

Lemma DecodeRune_4 b0 b1 b2 b3 t :
  lead_ok 4 b0 b1 = true → utf8.cont b2 = true → utf8.cont b3 = true →
  (utf8.DecodeRune (b0 :: b1 :: b2 :: b3 :: t)).2 = 4%nat.
Proof.
  intros (_ & _ & _ & Hself & lo & hi & Hfirst & Hacc)%lead_ok_inv Hc2 Hc3.
  unfold utf8.DecodeRune. rewrite Hself, Hfirst, Hacc, Hc2, Hc3. done.
Qed.

Lemma lead2_ok i :
  0x80 <= i <= 0x7FF → lead_ok 2 (lead2 (Z.shiftr i 6)) (cont_byte i) = true.
Proof.
  intros Hi.
  assert (all_from (λ i, lead_ok 2 (lead2 (Z.shiftr i 6)) (cont_byte i))
                   1920 0x80 = true) as Hall by (vm_compute; reflexivity).
  apply (all_from_spec _ _ _ Hall). lia.
Qed.

Lemma lead3_ok j :
  0x20 <= j <= 0x3FF → ¬ (0x360 <= j <= 0x37F) →
  lead_ok 3 (lead3 j) (cont_byte j) = true.
Proof.
  intros Hj Hs.
  assert (all_from (λ j, lead_ok 3 (lead3 j) (cont_byte j)) 832 0x20 = true)
    as Hlow by (vm_compute; reflexivity).
  assert (all_from (λ j, lead_ok 3 (lead3 j) (cont_byte j)) 128 0x380 = true)
    as Hhigh by (vm_compute; reflexivity).
  destruct (decide (j < 0x360)).
  - apply (all_from_spec _ _ _ Hlow). lia.
  - apply (all_from_spec _ _ _ Hhigh). lia.
Qed.

Lemma lead4_ok j :
  0x10 <= j <= 0x10F → lead_ok 4 (lead4 j) (cont_byte j) = true.
Proof.
  intros Hj.
  assert (all_from (λ j, lead_ok 4 (lead4 j) (cont_byte j)) 256 0x10 = true)
    as Hall by (vm_compute; reflexivity).
  apply (all_from_spec _ _ _ Hall). lia.
Qed.

Lemma shiftr_range i k lo hi :
  0 <= k → lo * 2 ^ k <= i < (hi + 1) * 2 ^ k → lo <= Z.shiftr i k <= hi.
Proof.
  intros Hk Hi. rewrite Z.shiftr_div_pow2 by done.
  assert (0 < 2 ^ k) by (apply Z.pow_pos_nonneg; lia).
  split.
  - apply Z.div_le_lower_bound; lia.
  - apply Z.lt_succ_r. apply Z.div_lt_upper_bound; lia.
Qed.

Lemma encode3_one_rune i :
  0x800 <= i <= 0xFFFF → ¬ (0xD800 <= i <= 0xDFFF) →
  one_rune (utf8.encode3 i).
Proof.
  intros Hi Hs.
  assert (utf8.encode3 i
          = [lead3 (Z.shiftr i 6); cont_byte (Z.shiftr i 6); cont_byte i])
    as ->.
  { unfold utf8.encode3, lead3, cont_byte.
    rewrite Z.shiftr_shiftr by lia. done. }
  pose proof (shiftr_range i 6 0x20 0x3FF ltac:(lia) ltac:(lia)) as Hj.
  assert (¬ (0x360 <= Z.shiftr i 6 <= 0x37F)) as Hjs.
  { rewrite Z.shiftr_div_pow2 by lia. intros [Hlo Hhi]. apply Hs.
    change (2 ^ 6) with 64 in *.
    pose proof (Z.div_mod i 64 ltac:(lia)).
    pose proof (Z.mod_pos_bound i 64 ltac:(lia)). lia. }
  pose proof (lead3_ok _ Hj Hjs) as Hok.
  destruct (cont_byte_ok i) as [Hb2 Hc2].
  pose proof (lead_ok_inv _ _ _ Hok) as (Hb0 & Hb1 & Hge & _).
  split; [by repeat constructor|].
  right. eexists _, _. split; [done|]. split; [done|].
  by apply DecodeRune_3.
Qed.

Lemma EncodeRune_one_rune r : one_rune (utf8.EncodeRune r).
Proof.
  unfold utf8.EncodeRune. cbv zeta.
  assert (0 <= r mod 2 ^ 32 < 2 ^ 32) as Hi by (apply Z.mod_pos_bound; lia).
  revert Hi. generalize (r mod 2 ^ 32). intros i Hi.
  unfold utf8.MaxRune, utf8.surrogateMin, utf8.surrogateMax.
  destruct (Z.leb_spec i 0x7F).
  { rewrite byte_small by lia. split.
    - repeat constructor. unfold byte_ok. apply andb_true_iff.
      split; [apply Z.leb_le|apply Z.ltb_lt]; lia.
    - left. exists i. split; [done|lia]. }
  destruct (Z.leb_spec i 0x7FF).
  { pose proof (lead2_ok i ltac:(lia)) as Hok.
    destruct (cont_byte_ok i) as [Hb1 _].
    pose proof (lead_ok_inv _ _ _ Hok) as (Hb0 & _ & Hge & _).
    split; [by repeat constructor|].
    right. eexists _, _. split; [done|]. split; [exact Hge|].
    by apply DecodeRune_2. }
  destruct (Z.ltb_spec 0x10FFFF i); cbn [orb].
  { apply encode3_one_rune; unfold utf8.RuneError; lia. }
  destruct (Z.leb_spec 0xD800 i); destruct (Z.leb_spec i 0xDFFF);
    cbn [andb]; try (apply encode3_one_rune; unfold utf8.RuneError; lia).
  all: destruct (Z.leb_spec i 0xFFFF); try (apply encode3_one_rune; lia).
  all: try lia.
  all: assert ([Z.lor 240 (utf8.byte (Z.shiftr i 18));
              Z.lor 128 (Z.land (utf8.byte (Z.shiftr i 12)) 63);
              Z.lor 128 (Z.land (utf8.byte (Z.shiftr i 6)) 63);
              Z.lor 128 (Z.land (utf8.byte i) 63)]
             = [lead4 (Z.shiftr i 12); cont_byte (Z.shiftr i 12);
                cont_byte (Z.shiftr i 6); cont_byte i]) as ->
    by (unfold lead4, cont_byte; rewrite Z.shiftr_shiftr by lia; done).
  all: pose proof (shiftr_range i 12 0x10 0x10F ltac:(lia) ltac:(lia)) as Hj.
  all: pose proof (lead4_ok _ Hj) as Hok.
  all: destruct (cont_byte_ok i) as [Hb3 Hc3].
  all: destruct (cont_byte_ok (Z.shiftr i 6)) as [Hb2 Hc2].
  all: pose proof (lead_ok_inv _ _ _ Hok) as (Hb0 & Hb1 & Hge & _).
  all: (split; [by repeat constructor|]).
  all: right; eexists _, _; (split; [done|]); (split; [exact Hge|]).
  all: by apply DecodeRune_4.
Qed.

(** ** Labels made from a rune *)

Lemma byte_val_chr b : byte_ok b = true → byte_val (byte_chr b) = b.
Proof.
  unfold byte_ok. intros [?%Z.leb_le ?%Z.ltb_lt]%andb_true_iff.
  unfold byte_val, byte_chr. rewrite Z.mod_small by lia.
  rewrite N_ascii_embedding by lia. lia.
Qed.

Lemma bytes_of_bytes bs :
  Forall (λ b, byte_ok b = true) bs → bytes (of_bytes bs) = bs.
Proof.
  intros Hok. unfold bytes, of_bytes.
  rewrite String.list_ascii_of_string_of_list_ascii.
  induction Hok as [|b bs Hb _ IH]; [done|].
  cbn [fmap list_fmap]. cbn [fmap list_fmap] in IH.
  by rewrite byte_val_chr, IH.
Qed.

Lemma string_app_empty_r s : s +:+ EmptyString = s.
Proof.
  induction s as [|c s IH]; [done|].
  change (String c s +:+ EmptyString)
    with (String c (s +:+ EmptyString)).
  by rewrite IH.
Qed.

Lemma range_one_rune bs :
  one_rune bs → ∃ c, range_from (length bs) 0 bs = [(0, c)].
Proof.
  intros [_ [(b & -> & Hb)|(b0 & t & -> & _ & Hw)]].
  - exists b. cbn [length range_from]. unfold utf8.DecodeRune.
    replace (b <? utf8.RuneSelf) with true
      by (symmetry; apply Z.ltb_lt; unfold utf8.RuneSelf; lia).
    done.
  - cbn [length range_from].
    destruct (utf8.DecodeRune (b0 :: t)) as [c w]. cbn [snd] in Hw.
    subst w. exists c. rewrite drop_all. by destruct (length t).
Qed.

Lemma of_bytes_not_Ctrl bs : one_rune bs → of_bytes bs ≠ "Ctrl".
Proof.
  intros [Hok [(b & -> & Hb)|(b0 & t & -> & Hge & _)]]; [done|].
  apply Forall_cons in Hok as [Hb0 _].
  unfold of_bytes. cbn [fmap list_fmap String.string_of_list_ascii].
  intros Heq. injection Heq as Hc _.
  apply (f_equal byte_val) in Hc. rewrite byte_val_chr in Hc by done.
  vm_compute in Hc. lia.
Qed.

Lemma string_of_rune_not_Ctrl r : string_of_rune r ≠ "Ctrl".
Proof. apply of_bytes_not_Ctrl, EncodeRune_one_rune. Qed.

Lemma strings_ToUpper_rune_not_Ctrl r :
  strings_ToUpper (string_of_rune r) ≠ "Ctrl".
Proof.
  pose proof (EncodeRune_one_rune r) as Hone.
  pose proof (range_one_rune _ Hone) as [c Hrange].
  unfold strings_ToUpper, isASCII, strings_Map, range_string, string_of_rune.
  destruct Hone as [Hok Hshape]. rewrite bytes_of_bytes by done.
  rewrite Hrange.
  destruct Hshape as [(b & -> & Hb)|(b0 & t & -> & Hge & _)].
  - cbn [forallb].
    replace (b <? utf8.RuneSelf) with true
      by (symmetry; apply Z.ltb_lt; unfold utf8.RuneSelf; lia).
    cbn [andb]. unfold of_bytes.
    cbn [fmap list_fmap String.string_of_list_ascii]. discriminate.
  - cbn [forallb].
    replace (b0 <? utf8.RuneSelf) with false
      by (symmetry; apply Z.ltb_ge; unfold utf8.RuneSelf; lia).
    cbn [andb foldr]. cbv zeta.
    destruct (0 <=? unicode_ToUpper c); [|done].
    rewrite string_app_empty_r. apply string_of_rune_not_Ctrl.
Qed.

Lemma labelFromEvent_not_Ctrl ev : labelFromEvent ev ≠ "Ctrl".
Proof.
  unfold labelFromEvent. cbv zeta.
  repeat (case_match; try done).
  - match goal with
    | Hex : existsb _ _ = true |- _ =>
      apply existsb_exists in Hex as (x & Hin & ->%Z.eqb_eq)
    end.
    cbn [In] in Hin.
    destruct_or! Hin; try done; rewrite <- Hin; vm_compute; done.
  - apply strings_ToUpper_rune_not_Ctrl.
  - apply string_of_rune_not_Ctrl.
Qed.

Lemma markPressed_ctrl_iff p ev :
  is_pressed (markPressed p ev) "Ctrl" = true ↔
  is_pressed p "Ctrl" = true
  ∨ has_mod (tcell.Modifiers ev) tcell.ModCtrl
    || in_ctrl_range (tcell.Key ev) = true.
Proof.
  pose proof (labelFromEvent_not_Ctrl ev) as Hne.
  unfold markPressed. cbv zeta.
  destruct (has_mod (tcell.Modifiers ev) tcell.ModCtrl
            || in_ctrl_range (tcell.Key ev));
    repeat case_match; rewrite ?is_pressed_insert;
    intuition (try done; try congruence).
Qed.

Lemma labelFromEvent_control_letter ev :
  tcell.KeyCtrlA <= tcell.Key ev <= tcell.KeyCtrlZ →
  tcell.Key ev ∉ [tcell.KeyBackspace; tcell.KeyTab; tcell.KeyEnter] →
  labelFromEvent ev = capital (tcell.Key ev - tcell.KeyCtrlA).
Proof.
  destruct ev as [k r m]. cbn [tcell.Key].
  unfold tcell.KeyCtrlA, tcell.KeyCtrlZ, tcell.KeyBackspace, tcell.KeyTab,
    tcell.KeyEnter.
  rewrite !not_elem_of_cons. intros Hk (H8 & H9 & H13 & _).
  assert (all_from (λ k, (k =? 8) || (k =? 9) || (k =? 13)
            || String.eqb (labelFromEvent (tcell.Build_EventKey k 0 0))
                          (capital (k - 1))) 26 1 = true) as Hall
    by (vm_compute; reflexivity).
  pose proof (all_from_spec _ _ _ Hall k ltac:(lia)) as Hc. cbv beta in Hc.
  rewrite !orb_true_iff in Hc.
  destruct Hc as [[[?%Z.eqb_eq|?%Z.eqb_eq]|?%Z.eqb_eq]|Heq]; try lia.
  apply String.eqb_eq in Heq. rewrite <- Heq.
  unfold labelFromEvent, in_ctrl_range. cbn [tcell.Key tcell.Rune].
  cbv zeta. unfold tcell.KeyRune.
  replace (k =? 256) with false by (symmetry; apply Z.eqb_neq; lia).
  destruct (k =? tcell.KeyEscape); [done|].
  destruct (k =? tcell.KeyEnter); [done|].
  destruct (k =? tcell.KeyTab); [done|].
  destruct ((k =? tcell.KeyBackspace) || (k =? tcell.KeyBackspace2));
    [done|].
  destruct (existsb _ _); done.
Qed.

(** C5 (as the code has it).  After a key event that [main] handles,
    ["Ctrl"] is marked exactly when it was marked before, or the modifier
    mask of the event includes Ctrl, or its key code is in the control-code
    range of the letters.  An event with a code of that range other than
    those of Backspace, Tab and Enter is labelled with the capital letter
    of the code. *)
Theorem ctrl_mark_and_control_letters st ev env st' out :
  loop_body initKeys st (tcell.EvKey ev) env = Continue st' out →
  (is_pressed (pressed st') "Ctrl" = true ↔
     is_pressed (pressed st) "Ctrl" = true
     ∨ Z.land (tcell.Modifiers ev) tcell.ModCtrl ≠ 0
     ∨ tcell.KeyCtrlA <= tcell.Key ev <= tcell.KeyCtrlZ)
  ∧ (tcell.KeyCtrlA <= tcell.Key ev <= tcell.KeyCtrlZ →
     tcell.Key ev ∉ [tcell.KeyBackspace; tcell.KeyTab; tcell.KeyEnter] →
     labelFromEvent ev = capital (tcell.Key ev - tcell.KeyCtrlA)).
Proof.
  intros Hstep. split; [|apply labelFromEvent_control_letter].
  apply loop_body_continue in Hstep as (_ & _ & -> & _).
  rewrite markPressed_ctrl_iff, orb_true_iff.
  unfold has_mod, in_ctrl_range.
  rewrite negb_true_iff, Z.eqb_neq, andb_true_iff, !Z.leb_le. tauto.
Qed.

(** ** The log line *)

Lemma bytes_app a b : bytes (a +:+ b) = bytes a ++ bytes b.
Proof. unfold bytes. by rewrite list_ascii_app, fmap_app. Qed.

Lemma bytes_spaces n : bytes (spaces n) = replicate (Z.to_nat n) 32.
Proof.
  unfold bytes, spaces.
  rewrite String.list_ascii_of_string_of_list_ascii.
  induction (Z.to_nat n) as [|k IH]; [done|].
  cbn [replicate fmap list_fmap]. f_equal. exact IH.
Qed.

Lemma DecodeRune_width s :
  s ≠ [] → (1 <= (utf8.DecodeRune s).2 <= length s)%nat.
Proof.
  intros Hs. unfold utf8.DecodeRune.
  repeat (case_match; try done); cbn [snd length]; lia.
Qed.

Lemma first_accepts_no_space b sz lo hi :
  utf8.first b = Some (sz, lo, hi) → (32 <? lo) = true.
Proof.
  unfold utf8.first. repeat case_match; intros Heq; simplify_eq; done.
Qed.

Lemma DecodeRune_app_spaces s n :
  s ≠ [] → utf8.DecodeRune (s ++ replicate n 32) = utf8.DecodeRune s.
Proof.
  intros Hs. destruct s as [|s0 t0]; [done|].
  unfold utf8.DecodeRune. cbn [app].
  destruct (s0 <? utf8.RuneSelf); [done|].
  destruct (utf8.first s0) as [[[sz lo] hi]|] eqn:Hf; [|done].
  apply first_accepts_no_space in Hf.
  destruct t0 as [|s1 t1]; cbn [app].
  { destruct n; cbn [replicate]; [done|]. by rewrite Hf. }
  destruct ((s1 <? lo) || (hi <? s1)); [done|].
  destruct (sz <=? 2)%nat; [done|].
  destruct t1 as [|s2 t2]; cbn [app].
  { destruct n; cbn [replicate]; done. }
  destruct (negb (utf8.cont s2)); [done|].
  destruct (sz <=? 3)%nat; [done|].
  destruct t2 as [|s3 t3]; cbn [app].
  { destruct n; cbn [replicate]; done. }
  done.
Qed.

Lemma range_from_spaces n : ∀ fuel i,
  (n <= fuel)%nat → length (range_from fuel i (replicate n 32)) = n.
Proof.
  induction n as [|n IH]; intros fuel i Hn.
  - by destruct fuel.
  - destruct fuel as [|fuel]; [lia|].
    cbn [replicate range_from]. unfold utf8.DecodeRune.
    change (32 <? utf8.RuneSelf) with true. cbn [drop length].
    rewrite IH by lia. done.
Qed.

Lemma range_from_app_spaces n fuel : ∀ s i,
  (length s <= fuel)%nat →
  length (range_from (fuel + n) i (s ++ replicate n 32))
  = (length (range_from fuel i s) + n)%nat.
Proof.
  induction fuel as [|fuel IH]; intros s i Hlen.
  - destruct s; [|cbn in Hlen; lia]. cbn [app plus range_from length].
    by apply range_from_spaces.
  - destruct s as [|b s].
    + cbn [app range_from length]. apply range_from_spaces. lia.
    + cbn [plus]. change ((b :: s) ++ replicate n 32)
        with (b :: (s ++ replicate n 32)).
      cbn [range_from].
      change (b :: (s ++ replicate n 32))
        with ((b :: s) ++ replicate n 32).
      rewrite DecodeRune_app_spaces by done.
      pose proof (DecodeRune_width (b :: s) ltac:(done)) as Hw.
      destruct (utf8.DecodeRune (b :: s)) as [r w]. cbn [snd] in Hw.
      cbn [length]. rewrite drop_app_le by lia.
      rewrite IH; [done|]. rewrite length_drop. cbn [length] in *. lia.
Qed.

Lemma RuneCount_app_spaces s n :
  RuneCountInString (s +:+ spaces n) = RuneCountInString s + Z.max 0 n.
Proof.
  unfold RuneCountInString, range_string. cbv zeta.
  rewrite bytes_app, bytes_spaces, length_app, length_replicate.
  rewrite range_from_app_spaces by done. lia.
Qed.

Lemma fmt_s_left_width width s :
  RuneCountInString (fmt_s_left width s)
  = Z.max width (RuneCountInString s).
Proof. unfold fmt_s_left. rewrite RuneCount_app_spaces. lia. Qed.

Lemma range_from_length fuel : ∀ s i j,
  length (range_from fuel i s) = length (range_from fuel j s).
Proof.
  induction fuel as [|fuel IH]; intros s i j; [done|].
  destruct s as [|b s]; [done|]. cbn [range_from].
  destruct (utf8.DecodeRune (b :: s)) as [r w]. cbn [length].
  f_equal. apply IH.
Qed.

Lemma range_from_spaces_app n fuel s i :
  length (range_from (n + fuel) i (replicate n 32 ++ s))
  = (n + length (range_from fuel i s))%nat.
Proof.
  revert i. induction n as [|n IH]; intros i; [done|].
  cbn [plus replicate app range_from]. unfold utf8.DecodeRune.
  change (32 <? utf8.RuneSelf) with true. cbn [drop length].
  rewrite IH. f_equal. f_equal. apply range_from_length.
Qed.

Lemma RuneCount_spaces_app n s :
  RuneCountInString (spaces n +:+ s) = Z.max 0 n + RuneCountInString s.
Proof.
  unfold RuneCountInString, range_string. cbv zeta.
  rewrite bytes_app, bytes_spaces, length_app, length_replicate.
  rewrite range_from_spaces_app. lia.
Qed.

Lemma fmt_d_right_width width n :
  RuneCountInString (fmt_d_right width n)
  = Z.max width (RuneCountInString (fmt_d n)).
Proof. unfold fmt_d_right. rewrite RuneCount_spaces_app. lia. Qed.

Lemma bytes_fmt_d_digit d : 0 <= d < 10 → bytes (fmt_d d) = [48 + d].
Proof.
  intros Hd.
  assert (d = 0 ∨ d = 1 ∨ d = 2 ∨ d = 3 ∨ d = 4 ∨ d = 5 ∨ d = 6 ∨ d = 7
          ∨ d = 8 ∨ d = 9) as Hcases by lia.
  repeat destruct Hcases as [->|Hcases]; try subst d; vm_compute;
    reflexivity.
Qed.

Lemma bytes_two_digits n :
  bytes (two_digits n) = [48 + n / 10 mod 10; 48 + n mod 10].
Proof.
  unfold two_digits. rewrite bytes_app.
  rewrite !bytes_fmt_d_digit by (apply Z.mod_pos_bound; lia). done.
Qed.

Lemma bytes_time_Format t :
  bytes (time_Format t)
  = [48 + Hour t / 10 mod 10; 48 + Hour t mod 10; 58;
     48 + Minute t / 10 mod 10; 48 + Minute t mod 10; 58;
     48 + Second t / 10 mod 10; 48 + Second t mod 10].
Proof.
  unfold time_Format. rewrite !bytes_app, !bytes_two_digits. done.
Qed.

(** C7 (as the code has it).  The line appended for a key event is the
    timestamp, the label, the key code and the modifier summary, separated
    by [" | "].  The timestamp is eight bytes, [HH:MM:SS]: two decimal
    digits each for the hour, the minute and the second, with colons
    between.  The label is printed in full, flush left, and spaces are
    added on the right up to seven runes: its field is [max 7 n] runes
    wide for a label of [n] runes, and no label is cut.  The code is
    printed in decimal, flush right: spaces are added on the left up to
    three runes, its field is [max 3 n] runes wide for a code of [n]
    digits and signs.  On a screen with room for the log, the line is the
    last of the log after the event. *)
Theorem log_line_fields st ev env st' out :
  37 <= scrH env <= max_int →
  loop_body initKeys st (tcell.EvKey ev) env = Continue st' out →
  let label := labelFromEvent ev in
  last (logs st') = Some (logLine (now env) ev)
  ∧ logLine (now env) ev =
      time_Format (now env) +:+ " | " +:+ fmt_s_left 7 label
        +:+ " | Code=" +:+ fmt_d_right 3 (tcell.Key ev)
        +:+ " | Mods=" +:+ modString (tcell.Modifiers ev)
  ∧ time_Format (now env) =
      two_digits (Hour (now env)) +:+ ":" +:+ two_digits (Minute (now env))
        +:+ ":" +:+ two_digits (Second (now env))
  ∧ bytes (time_Format (now env)) =
      [48 + Hour (now env) / 10 mod 10; 48 + Hour (now env) mod 10; 58;
       48 + Minute (now env) / 10 mod 10; 48 + Minute (now env) mod 10; 58;
       48 + Second (now env) / 10 mod 10; 48 + Second (now env) mod 10]
  ∧ (∃ padding, fmt_s_left 7 label = label +:+ padding
                ∧ padding = spaces (7 - RuneCountInString label))
  ∧ RuneCountInString (fmt_s_left 7 label)
    = Z.max 7 (RuneCountInString label)
  ∧ (∃ padding, fmt_d_right 3 (tcell.Key ev)
                = padding +:+ fmt_d (tcell.Key ev)
                ∧ padding
                  = spaces (3 - RuneCountInString (fmt_d (tcell.Key ev))))
  ∧ RuneCountInString (fmt_d_right 3 (tcell.Key ev))
    = Z.max 3 (RuneCountInString (fmt_d (tcell.Key ev))).
Proof.
  intros Hh Hstep. cbv zeta.
  split.
  { apply loop_body_continue in Hstep as (_ & Htrim & _).
    rewrite safeTrim_lastn in Htrim by lia.
    apply (inj Some) in Htrim. rewrite <- Htrim. unfold lastn.
    rewrite length_app. cbn [length].
    rewrite drop_app_le by lia. rewrite last_snoc. done. }
  split; [done|]. split; [done|].
  split; [apply bytes_time_Format|].
  split; [by eexists|]. split; [apply fmt_s_left_width|].
  split; [by eexists|]. apply fmt_d_right_width.
Qed.

(** ** Runs of the loop *)

Lemma main_loop_no_panic inputs : ∀ st, main_loop st inputs ≠ Panic.
Proof.
  induction inputs as [|[ev env] rest IH]; intros st; [done|].
  cbn [main_loop].
  pose proof (loop_body_no_panic st ev env) as Hnp.
  destruct (loop_body initKeys st ev env) as [st1 out1|st1|]; [|done..].
  specialize (IH st1). by destruct (main_loop st1 rest).
Qed.

Lemma count_keys_cons p ev env rest :
  count_keys p ((ev, env) :: rest) =
  (match ev with
   | tcell.EvKey kev => if p kev then 1 else 0
   | _ => 0
   end) + count_keys p rest.
Proof.
  unfold count_keys. cbn [List.filter fst].
  destruct ev as [kev| |]; [destruct (p kev)|..]; cbn [length]; lia.
Qed.

Lemma main_loop_counts inputs : ∀ st st' out,
  counters_below st →
  main_loop st inputs = Continue st' out →
  escCount st' = escCount st + count_keys is_escape inputs
  ∧ enterCount st' = enterCount st + count_keys is_enter inputs
  ∧ spaceCount st' = spaceCount st + count_keys is_space inputs.
Proof.
  induction inputs as [|[ev env] rest IH]; intros st st' out Hinv.
  - cbn. intros Heq. simplify_eq. unfold count_keys. cbn. lia.
  - cbn [main_loop].
    destruct (loop_body initKeys st ev env) as [st1 out1| |] eqn:E; [|done..].
    destruct (main_loop st1 rest) as [st2 out2| |] eqn:E2; [|done..].
    intros Heq. simplify_eq.
    pose proof (loop_body_counters_below _ _ _ _ _ Hinv E) as Hinv1.
    destruct (IH _ _ _ Hinv1 E2) as (He & Hn & Hs).
    rewrite !count_keys_cons, He, Hn, Hs.
    destruct ev as [kev| |].
    + apply loop_body_continue in E as (_ & _ & _ & -> & -> & -> & _).
      destruct (exitLogic_counters st kev Hinv) as (Ce & Cn & Cs & _).
      cbv zeta in Ce, Cn, Cs. rewrite Ce, Cn, Cs.
      unfold is_escape, is_enter, is_space.
      repeat case_match; lia.
    + cbn in E. simplify_eq. lia.
    + cbn in E. simplify_eq. lia.
Qed.

(** X1.  In a run of [main] that is still polling, each counter is the
    number of its inputs among the events so far (Escape keys, Enter keys,
    space runes), and that number is at most 4. *)
Theorem counters_count_events inputs st' out :
  main_loop initial inputs = Continue st' out →
  escCount st' = count_keys is_escape inputs
  ∧ enterCount st' = count_keys is_enter inputs
  ∧ spaceCount st' = count_keys is_space inputs
  ∧ count_keys is_escape inputs <= 4
  ∧ count_keys is_enter inputs <= 4
  ∧ count_keys is_space inputs <= 4.
Proof.
  intros Hrun.
  assert (counters_below initial) as Hinit
    by (unfold counters_below, initial; cbn; lia).
  destruct (main_loop_counts _ _ _ _ Hinit Hrun) as (He & Hn & Hs).
  pose proof (main_loop_counters_below _ _ _ _ Hinit Hrun)
    as (Be & Bn & Bs).
  cbn [escCount enterCount spaceCount initial] in He, Hn, Hs.
  repeat split; lia.
Qed.

(** X2.  A run whose events hold five Escape keys, five Enter keys or five
    space runes has returned from [main]: it neither polls again nor
    panics. *)
Theorem five_presses_return inputs :
  5 <= count_keys is_escape inputs
  ∨ 5 <= count_keys is_enter inputs
  ∨ 5 <= count_keys is_space inputs →
  ∃ st', main_loop initial inputs = Return st'.
Proof.
  intros Hfive.
  pose proof (main_loop_no_panic inputs initial) as Hnp.
  destruct (main_loop initial inputs) as [st' out|st'|] eqn:Hrun;
    [|by eexists|done].
  assert (counters_below initial) as Hinit
    by (unfold counters_below, initial; cbn; lia).
  destruct (main_loop_counts _ _ _ _ Hinit Hrun) as (He & Hn & Hs).
  pose proof (main_loop_counters_below _ _ _ _ Hinit Hrun)
    as (Be & Bn & Bs).
  cbn [escCount enterCount spaceCount initial] in He, Hn, Hs. lia.
Qed.

Lemma safeTrim_suffix keys h l l' :
  safeTrim keys h l = Some l' → l' `suffix_of` l.
Proof.
  unfold safeTrim. destruct (sepY keys) as [y|]; [|done].
  cbn [mbind option_bind]. intros Heq. apply (inj Some) in Heq. subst l'.
  repeat case_match.
  - apply suffix_nil.
  - apply suffix_drop.
  - done.
Qed.

(** X3.  The log of a run that is still polling is a tail of the lines
    logged so far (the lines it started with, then one line per key event,
    in the order of the events): whatever the heights the screen took, no
    line is altered, reordered or dropped from the middle. *)
Theorem log_is_tail_of_history inputs : ∀ st st' out,
  main_loop st inputs = Continue st' out →
  logs st' `suffix_of` (logs st ++ entries_of inputs).
Proof.
  induction inputs as [|[ev env] rest IH]; intros st st' out.
  - cbn. intros Heq. simplify_eq. by rewrite app_nil_r.
  - cbn [main_loop].
    destruct (loop_body initKeys st ev env) as [st1 out1| |] eqn:E; [|done..].
    destruct (main_loop st1 rest) as [st2 out2| |] eqn:E2; [|done..].
    intros Heq. simplify_eq. specialize (IH _ _ _ E2).
    unfold entries_of. cbn [mbind list_bind]. fold (entries_of rest).
    destruct ev as [kev| |].
    + apply loop_body_continue in E as (_ & Htrim & _).
      apply safeTrim_suffix in Htrim.
      etrans; [exact IH|].
      rewrite (app_assoc (logs st)). by apply suffix_app.
    + cbn in E. by simplify_eq.
    + cbn in E. by simplify_eq.
Qed.

Lemma markPressed_true p ev :
  (∀ l b, p !! l = Some b → b = true) →
  ∀ l b, markPressed p ev !! l = Some b → b = true.
Proof.
  intros Hp. unfold markPressed. cbv zeta.
  assert (∀ (m : gmap string bool) k,
            (∀ l b, m !! l = Some b → b = true) →
            ∀ l b, <[k := true]> m !! l = Some b → b = true) as Hins.
  { intros m k Hm l b. destruct (decide (k = l)) as [->|Hne].
    - rewrite lookup_insert_eq. by intros [= <-].
    - rewrite lookup_insert_ne by done. apply Hm. }
  repeat case_match; repeat apply Hins; exact Hp.
Qed.

Lemma main_loop_pressed inputs : ∀ st st' out,
  main_loop st inputs = Continue st' out →
  pressed_set (pressed st) ⊆ pressed_set (pressed st')
  ∧ ((∀ l b, pressed st !! l = Some b → b = true) →
     ∀ l b, pressed st' !! l = Some b → b = true)
  ∧ ∀ kev env, (tcell.EvKey kev, env) ∈ inputs →
               is_pressed (pressed st') (labelFromEvent kev) = true.
Proof.
  induction inputs as [|[ev env] rest IH]; intros st st' out.
  - cbn. intros Heq. simplify_eq. split; [done|]. split; [done|].
    intros kev env Hin. by apply elem_of_nil in Hin.
  - cbn [main_loop].
    destruct (loop_body initKeys st ev env) as [st1 out1| |] eqn:E; [|done..].
    destruct (main_loop st1 rest) as [st2 out2| |] eqn:E2; [|done..].
    intros Heq. simplify_eq.
    destruct (IH _ _ _ E2) as (Hsub & Htrue & Hall).
    assert (outcome_state (loop_body initKeys st ev env) = Some st1) as Ho
      by (by rewrite E).
    pose proof (loop_body_pressed_grows _ _ _ _ _ Ho) as [Hstep _].
    split; [by etrans|]. split.
    + intros Hst. apply Htrue.
      apply loop_body_pressed in Ho as [->|(kev & _ & _ & ->)]; [done|].
      by apply markPressed_true.
    + intros kev env' Hin. apply elem_of_cons in Hin as [Heq|Hin].
      * simplify_eq.
        apply loop_body_continue in E as (_ & _ & Hp & _).
        apply elem_of_pressed_set, Hsub, elem_of_pressed_set.
        rewrite Hp. apply markPressed_label.
      * by eapply Hall.
Qed.

(** X4.  Highlighting is permanent over a run: when [main] polls again
    after a sequence of events, the label of every key event of the
    sequence is marked, and the map holds no label with the value
    [false], so that its keys are exactly the marked labels. *)
Theorem labels_stay_marked inputs st' out :
  main_loop initial inputs = Continue st' out →
  (∀ kev env, (tcell.EvKey kev, env) ∈ inputs →
              is_pressed (pressed st') (labelFromEvent kev) = true)
  ∧ (∀ l b, pressed st' !! l = Some b → b = true)
  ∧ dom (pressed st') = pressed_set (pressed st').
Proof.
  intros Hrun. destruct (main_loop_pressed _ _ _ _ Hrun) as (_ & Htrue & Hall).
  assert (∀ l b, pressed st' !! l = Some b → b = true) as Hst'.
  { apply Htrue. intros l b. cbn. by rewrite lookup_empty. }
  split; [exact Hall|]. split; [exact Hst'|].
  apply set_eq. intros l. rewrite elem_of_pressed_set, elem_of_dom.
  unfold is_pressed. split.
  - intros [b Hb]. rewrite Hb. cbn. by eapply Hst'.
  - destruct (pressed st' !! l); [by eexists|done].
Qed.

(** X5.  With the fixed layout no iteration and no run of the loop panics,
    whatever the events, the clock and the size of the screen, negative
    sizes included.  The index [len(keys)-1] is what could: with an empty
    layout [drawAll] panics, a key event that does not end [main] panics,
    and one that ends it still returns. *)
Theorem layout_index_in_range st ev env inputs :
  loop_body initKeys st ev env ≠ Panic
  ∧ main_loop st inputs ≠ Panic
  ∧ (∀ w l p, drawAll w [] l p = None)
  ∧ (∀ kev, loop_body [] st (tcell.EvKey kev) env =
            if (exitLogic st kev).2 then Return (exitLogic st kev).1
            else Panic).
Proof.
  split; [apply loop_body_no_panic|]. split; [apply main_loop_no_panic|].
  split; [done|].
  intros kev. unfold loop_body.
  destruct (exitLogic st kev) as [st1 ex]. by destruct ex.
Qed.

(** ** The modifier marks *)

Lemma of_bytes_one_rune_not_word bs c1 c2 rest :
  one_rune bs → byte_val c1 < 0x80 →
  of_bytes bs ≠ String c1 (String c2 rest).
Proof.
  intros [Hok [(b & -> & Hb)|(b0 & t & -> & Hge & _)]] Hc1; [done|].
  apply Forall_cons in Hok as [Hb0 _].
  unfold of_bytes. cbn [fmap list_fmap String.string_of_list_ascii].
  intros Heq. injection Heq as Hc _.
  apply (f_equal byte_val) in Hc. rewrite byte_val_chr in Hc by done. lia.
Qed.

Lemma strings_ToUpper_rune_not_word r c1 c2 rest :
  byte_val c1 < 0x80 →
  strings_ToUpper (string_of_rune r) ≠ String c1 (String c2 rest).
Proof.
  intros Hc1.
  pose proof (EncodeRune_one_rune r) as Hone.
  pose proof (range_one_rune _ Hone) as [c Hrange].
  unfold strings_ToUpper, isASCII, strings_Map, range_string, string_of_rune.
  destruct Hone as [Hok Hshape]. rewrite bytes_of_bytes by done.
  rewrite Hrange.
  destruct Hshape as [(b & -> & Hb)|(b0 & t & -> & Hge & _)].
  - cbn [forallb].
    replace (b <? utf8.RuneSelf) with true
      by (symmetry; apply Z.ltb_lt; unfold utf8.RuneSelf; lia).
    cbn [andb]. unfold of_bytes.
    cbn [fmap list_fmap String.string_of_list_ascii]. discriminate.
  - cbn [forallb].
    replace (b0 <? utf8.RuneSelf) with false
      by (symmetry; apply Z.ltb_ge; unfold utf8.RuneSelf; lia).
    cbn [andb foldr]. cbv zeta.
    destruct (0 <=? unicode_ToUpper c); [|done].
    rewrite string_app_empty_r.
    apply of_bytes_one_rune_not_word; [apply EncodeRune_one_rune|done].
Qed.

Lemma labelFromEvent_not_modifier ev :
  labelFromEvent ev ∉ ["Ctrl"; "Alt"; "Shift"; "CapsLock"].
Proof.
  rewrite !not_elem_of_cons.
  assert (∀ r c1 c2 rest, byte_val c1 < 0x80 →
            string_of_rune r ≠ String c1 (String c2 rest)) as Hrune.
  { intros r c1 c2 rest Hc1.
    apply of_bytes_one_rune_not_word; [apply EncodeRune_one_rune|done]. }
  unfold labelFromEvent. cbv zeta.
  repeat case_match;
    try solve [repeat split; first [discriminate | apply not_elem_of_nil]].
  - match goal with
    | Hex : existsb _ _ = true |- _ =>
      apply existsb_exists in Hex as (x & Hin & ->%Z.eqb_eq)
    end.
    cbn [In] in Hin.
    destruct_or! Hin; try done; rewrite <- Hin; vm_compute;
      repeat split; first [discriminate | apply not_elem_of_nil].
  - repeat split; try apply not_elem_of_nil;
      apply strings_ToUpper_rune_not_word; vm_compute; done.
  - repeat split; try apply not_elem_of_nil;
      apply Hrune; vm_compute; done.
Qed.

Lemma markPressed_modifiers p ev :
  (is_pressed (markPressed p ev) "Alt" = true ↔
   is_pressed p "Alt" = true
   ∨ has_mod (tcell.Modifiers ev) tcell.ModAlt = true)
  ∧ (is_pressed (markPressed p ev) "Shift" = true ↔
     is_pressed p "Shift" = true
     ∨ has_mod (tcell.Modifiers ev) tcell.ModShift = true)
  ∧ (is_pressed (markPressed p ev) "CapsLock" = true ↔
     is_pressed p "CapsLock" = true ∨ caps_heuristic ev = true).
Proof.
  pose proof (labelFromEvent_not_modifier ev) as Hne.
  rewrite !not_elem_of_cons in Hne.
  destruct Hne as (_ & Ha & Hs & Hc & _).
  unfold markPressed, caps_heuristic. cbv zeta.
  destruct (tcell.Key ev =? tcell.KeyRune);
  destruct (has_mod (tcell.Modifiers ev) tcell.ModCtrl
            || in_ctrl_range (tcell.Key ev));
  destruct (has_mod (tcell.Modifiers ev) tcell.ModAlt);
  destruct (has_mod (tcell.Modifiers ev) tcell.ModShift);
  destruct (unicode_IsLetter (tcell.Rune ev));
  destruct (unicode_IsUpper (tcell.Rune ev));
  cbn [andb negb]; rewrite ?is_pressed_insert;
  intuition (try done; try congruence).
Qed.

(** X6.  After a key event that [main] handles, ["Alt"] is marked exactly
    when it was marked before or the modifier mask has the Alt bit,
    ["Shift"] exactly when it was marked before or the mask has the Shift
    bit, and ["CapsLock"] exactly when it was marked before or the event is
    a rune that is an upper-case letter and the mask has no Shift bit.  No
    label of an event is one of these names, so that a key never marks a
    modifier by its label. *)
Theorem modifier_marks st ev env st' out :
  loop_body initKeys st (tcell.EvKey ev) env = Continue st' out →
  (is_pressed (pressed st') "Alt" = true ↔
     is_pressed (pressed st) "Alt" = true
     ∨ Z.land (tcell.Modifiers ev) tcell.ModAlt ≠ 0)
  ∧ (is_pressed (pressed st') "Shift" = true ↔
     is_pressed (pressed st) "Shift" = true
     ∨ Z.land (tcell.Modifiers ev) tcell.ModShift ≠ 0)
  ∧ (is_pressed (pressed st') "CapsLock" = true ↔
     is_pressed (pressed st) "CapsLock" = true
     ∨ (tcell.Key ev = tcell.KeyRune
        ∧ unicode_IsLetter (tcell.Rune ev) = true
        ∧ unicode_IsUpper (tcell.Rune ev) = true
        ∧ Z.land (tcell.Modifiers ev) tcell.ModShift = 0))
  ∧ (labelFromEvent ev ∉ ["Ctrl"; "Alt"; "Shift"; "CapsLock"]).
Proof.
  intros Hstep. apply loop_body_continue in Hstep as (_ & _ & -> & _).
  destruct (markPressed_modifiers (pressed st) ev) as (Ha & Hs & Hc).
  split; [|split; [|split]].
  - rewrite Ha. unfold has_mod. by rewrite negb_true_iff, Z.eqb_neq.
  - rewrite Hs. unfold has_mod. by rewrite negb_true_iff, Z.eqb_neq.
  - rewrite Hc. unfold caps_heuristic, has_mod.
    rewrite !andb_true_iff, negb_involutive, !Z.eqb_eq. tauto.
  - apply labelFromEvent_not_modifier.
Qed.

(** ** The modifier summary *)

(** X7.  [modString] reads the Ctrl, Alt and Shift bits of the mask and
    nothing else: two masks have the same summary exactly when they agree
    on the three bits, and the summary is ["None"] exactly when none of the
    three is set. *)
Theorem modString_reads_three_bits m m' :
  (modString m = modString m' ↔
     has_mod m tcell.ModCtrl = has_mod m' tcell.ModCtrl
     ∧ has_mod m tcell.ModAlt = has_mod m' tcell.ModAlt
     ∧ has_mod m tcell.ModShift = has_mod m' tcell.ModShift)
  ∧ (modString m = "None" ↔
     Z.land m tcell.ModCtrl = 0 ∧ Z.land m tcell.ModAlt = 0
     ∧ Z.land m tcell.ModShift = 0).
Proof.
  unfold modString. cbv zeta.
  assert (∀ x, has_mod m x = false ↔ Z.land m x = 0) as Hz.
  { intros x. unfold has_mod. by rewrite negb_false_iff, Z.eqb_eq. }
  rewrite <- !Hz.
  destruct (has_mod m tcell.ModCtrl), (has_mod m tcell.ModAlt),
    (has_mod m tcell.ModShift), (has_mod m' tcell.ModCtrl),
    (has_mod m' tcell.ModAlt), (has_mod m' tcell.ModShift);
    cbn; (split; split); intros; destruct_and?; done.
Qed.

(** ** More on classification *)

(** X8.  A rune event of a small letter and one of its capital get the same
    label, the capital letter, whatever their modifiers: the key of a
    letter is highlighted with and without Shift. *)
Theorem letters_fold_to_capital ev ev' :
  tcell.Key ev = tcell.KeyRune → tcell.Key ev' = tcell.KeyRune →
  97 <= tcell.Rune ev <= 122 → tcell.Rune ev' = tcell.Rune ev - 32 →
  labelFromEvent ev = capital (tcell.Rune ev - 97)
  ∧ labelFromEvent ev' = labelFromEvent ev.
Proof.
  destruct ev as [k r m], ev' as [k' r' m']. cbn [tcell.Key tcell.Rune].
  intros -> -> Hr ->.
  assert (all_from
            (λ r, String.eqb
                    (labelFromEvent (tcell.Build_EventKey tcell.KeyRune r 0))
                    (capital (r - 97))
                  && String.eqb
                    (labelFromEvent
                       (tcell.Build_EventKey tcell.KeyRune (r - 32) 0))
                    (capital (r - 97)))
            26 97 = true) as Hall by (vm_compute; reflexivity).
  pose proof (all_from_spec _ _ _ Hall r ltac:(lia)) as Hc. cbv beta in Hc.
  apply andb_true_iff in Hc as [Hlow%String.eqb_eq Hup%String.eqb_eq].
  change (labelFromEvent (tcell.Build_EventKey tcell.KeyRune r m))
    with (labelFromEvent (tcell.Build_EventKey tcell.KeyRune r 0)).
  change (labelFromEvent (tcell.Build_EventKey tcell.KeyRune (r - 32) m'))
    with (labelFromEvent (tcell.Build_EventKey tcell.KeyRune (r - 32) 0)).
  by rewrite Hlow, Hup.
Qed.

Lemma DecodeRune_nonneg s :
  Forall (λ b, 0 <= b) s → 0 <= (utf8.DecodeRune s).1.
Proof.
  intros Hs. unfold utf8.DecodeRune.
  repeat case_match; cbn [fst]; try (unfold utf8.RuneError; lia).
  - by apply Forall_cons in Hs as [? _].
  - repeat (apply Z.lor_nonneg; split);
      first [apply Z.shiftl_nonneg|idtac]; apply Z.land_nonneg; lia.
  - repeat (apply Z.lor_nonneg; split);
      first [apply Z.shiftl_nonneg|idtac]; apply Z.land_nonneg; lia.
  - repeat (apply Z.lor_nonneg; split);
      first [apply Z.shiftl_nonneg|idtac]; apply Z.land_nonneg; lia.
Qed.

Lemma of_bytes_one_rune_nonempty bs : one_rune bs → of_bytes bs ≠ EmptyString.
Proof. by intros [_ [(b & -> & _)|(b0 & t & -> & _)]]. Qed.

Lemma strings_ToUpper_rune_nonempty r :
  (∀ c, 0 <= c → 0 <= unicode_To_UpperCase c) →
  strings_ToUpper (string_of_rune r) ≠ EmptyString.
Proof.
  intros Htab.
  pose proof (EncodeRune_one_rune r) as Hone.
  unfold strings_ToUpper, isASCII, strings_Map, range_string, string_of_rune.
  destruct Hone as [Hok Hshape]. rewrite bytes_of_bytes by done.
  destruct Hshape as [(b & -> & Hb)|(b0 & t & Heq & Hge & Hw)].
  - cbn [forallb].
    replace (b <? utf8.RuneSelf) with true
      by (symmetry; apply Z.ltb_lt; unfold utf8.RuneSelf; lia).
    done.
  - rewrite Heq in *. cbn [forallb].
    replace (b0 <? utf8.RuneSelf) with false
      by (symmetry; apply Z.ltb_ge; unfold utf8.RuneSelf; lia).
    cbn [andb length range_from].
    assert (0 <= (utf8.DecodeRune (b0 :: t)).1) as Hc.
    { apply DecodeRune_nonneg. eapply Forall_impl; [exact Hok|].
      intros b. unfold byte_ok.
      intros [?%Z.leb_le _]%andb_true_iff. done. }
    destruct (utf8.DecodeRune (b0 :: t)) as [c w]. cbn [fst snd] in *.
    subst w. rewrite drop_all.
    replace (range_from (length t) (0 + Z.of_nat (length (b0 :: t))) [])
      with (@nil (Z * Z)) by (by destruct (length t)).
    cbn [foldr]. cbv zeta.
    assert (0 <= unicode_ToUpper c) as Hup.
    { unfold unicode_ToUpper, upper_byte. repeat case_match; auto; lia. }
    apply Z.leb_le in Hup. rewrite Hup. rewrite string_app_empty_r.
    apply of_bytes_one_rune_nonempty, EncodeRune_one_rune.
Qed.

(** X9.  No event gets the empty label, provided the table of upper-case
    mappings yields no negative rune for a rune that is not negative (a
    negative image would make [strings.ToUpper] drop the rune). *)
Theorem label_never_empty ev :
  (∀ c, 0 <= c → 0 <= unicode_To_UpperCase c) →
  labelFromEvent ev ≠ EmptyString.
Proof.
  intros Htab. unfold labelFromEvent. cbv zeta.
  repeat case_match; try done.
  - match goal with
    | Hex : existsb _ _ = true |- _ =>
      apply existsb_exists in Hex as (x & Hin & ->%Z.eqb_eq)
    end.
    cbn [In] in Hin.
    destruct_or! Hin; try done; rewrite <- Hin; vm_compute; discriminate.
  - by apply strings_ToUpper_rune_nonempty.
  - apply of_bytes_one_rune_nonempty, EncodeRune_one_rune.
Qed.

Lemma labelFromEvent_key_only k r m r' m' :
  k ≠ tcell.KeyRune →
  labelFromEvent (tcell.Build_EventKey k r m)
  = labelFromEvent (tcell.Build_EventKey k r' m').
Proof.
  intros Hk. unfold labelFromEvent. cbn [tcell.Key tcell.Rune]. cbv zeta.
  apply Z.eqb_neq in Hk. by rewrite Hk.
Qed.

(** X10.  The label of a named key or of a control code is the label of a
    key of the layout, so that the event highlights a key; the label of an
    unrecognised code is the label of none. *)
Theorem labels_and_layout ev :
  (tcell.Key ev ∈ named_keys
   ∨ tcell.KeyCtrlA <= tcell.Key ev <= tcell.KeyCtrlZ →
   labelFromEvent ev ∈ layout_labels)
  ∧ (unrecognised (tcell.Key ev) → labelFromEvent ev ∉ layout_labels).
Proof.
  split.
  - intros Hk.
    assert (tcell.Key ev ∈ named_keys ++ seqZ 1 26) as Hin.
    { apply elem_of_app. destruct Hk as [?|Hr]; [by left|right].
      apply elem_of_seqZ. unfold tcell.KeyCtrlA, tcell.KeyCtrlZ in Hr. lia. }
    assert (Forall (λ k, k ≠ tcell.KeyRune
                         ∧ labelFromEvent (tcell.Build_EventKey k 0 0)
                           ∈ layout_labels)
                   (named_keys ++ seqZ 1 26)) as Hall
      by (apply (bool_decide_unpack _); vm_compute; exact I).
    rewrite Forall_forall in Hall. destruct (Hall _ Hin) as [Hne Hlab].
    destruct ev as [k r m]. cbn [tcell.Key] in *.
    by rewrite (labelFromEvent_key_only k r m 0 0).
  - intros Hun. rewrite (labelFromEvent_unrecognised ev Hun).
    assert (Forall (λ s, String.get 3 s ≠ Some "["%char) layout_labels)
      as Hall by (apply (bool_decide_unpack _); vm_compute; exact I).
    rewrite Forall_forall in Hall. intros Hin.
    apply (Hall _ Hin). reflexivity.
Qed.

(** ** The layout *)

Lemma addRow_from_app labels : ∀ out x y,
  ∃ row, addRow_from out x labels y = out ++ row
         ∧ Label <$> row = labels
         ∧ Forall (λ k, Y k = y ∧ H k = 3
                        ∧ W k = int_add (len (Label k)) 2) row.
Proof.
  induction labels as [|L rest IH]; intros out x y.
  - exists []. by rewrite app_nil_r.
  - cbn [addRow_from]. cbv zeta.
    destruct (IH (out ++ [ {| Label := L; X := x; Y := y;
                              W := int_add (len L) 2; H := 3 |} ])
                 (int_add x (int_add (int_add (len L) 2) 1)) y)
      as (row & -> & Hlab & Hall).
    eexists (_ :: row). rewrite <- app_assoc. split; [done|].
    split; [cbn; by rewrite Hlab|].
    by constructor.
Qed.

(** X11.  [addRow] keeps the keys it is given and appends one key per
    label, in the order of the labels; each new key is on row [y], three
    rows high, and as wide as its label in bytes plus two. *)
Theorem addRow_appends_row out labels y :
  ∃ row, addRow out labels y = out ++ row
         ∧ Label <$> row = labels
         ∧ length row = length labels
         ∧ Forall (λ k, Y k = y ∧ H k = 3
                        ∧ W k = int_add (len (Label k)) 2) row.
Proof.
  destruct (addRow_from_app labels out 0 y) as (row & Heq & Hlab & Hall).
  exists row. split; [exact Heq|]. split; [exact Hlab|].
  split; [|exact Hall].
  by rewrite <- Hlab, length_fmap.
Qed.

Lemma row_width_nonneg labels : 0 <= row_width labels.
Proof.
  unfold row_width.
  induction labels as [|L rest IH]; simpl; [done|].
  assert (0 <= len L) by (unfold len; lia). lia.
Qed.

Lemma row_width_take labels (i j : nat) :
  (i <= j)%nat → row_width (take i labels) <= row_width (take j labels).
Proof.
  revert i j. induction labels as [|L rest IH]; intros i j Hij.
  - by rewrite !take_nil.
  - destruct i as [|i]; [cbn [take]; apply row_width_nonneg|].
    destruct j as [|j]; [lia|]. cbn [take]. unfold row_width in *. simpl.
    specialize (IH i j ltac:(lia)). lia.
Qed.

Lemma addRow_from_columns labels : ∀ out x y row,
  0 <= x → x + row_width labels <= max_int →
  addRow_from out x labels y = out ++ row →
  ∀ (i : nat) k, row !! i = Some k →
    X k = x + row_width (take i labels)
    ∧ W k = len (Label k) + 2
    ∧ ∃ L, labels !! i = Some L ∧ Label k = L.
Proof.
  unfold max_int.
  induction labels as [|L rest IH]; intros out x y row Hx Hfit Heq i k Hi.
  - cbn in Heq. apply (f_equal length) in Heq as Hlen.
    rewrite length_app in Hlen.
    destruct row; [done|]. cbn in Hlen. lia.
  - cbn [addRow_from] in Heq. cbv zeta in Heq.
    unfold row_width in Hfit. simpl in Hfit. fold (row_width rest) in Hfit.
    pose proof (row_width_nonneg rest) as Hrest.
    assert (0 <= len L) as HL by (unfold len; lia).
    unfold int_add in Heq.
    rewrite (int_wrap_id (len L + 2)) in Heq by lia.
    rewrite (int_wrap_id (len L + 2 + 1)) in Heq by lia.
    rewrite (int_wrap_id (x + (len L + 2 + 1))) in Heq by lia.
    destruct (addRow_from_app rest
                (out ++ [ {| Label := L; X := x; Y := y;
                             W := len L + 2; H := 3 |} ])
                (x + (len L + 2 + 1)) y) as (row' & Heq' & _).
    assert (row = {| Label := L; X := x; Y := y; W := len L + 2; H := 3 |}
                  :: row') as ->.
    { rewrite Heq' in Heq. rewrite <- app_assoc in Heq.
      by apply app_inv_head in Heq. }
    destruct i as [|i].
    + cbn in Hi. simplify_eq. cbn. split; [lia|]. split; [done|]. eauto.
    + cbn [lookup list_lookup] in Hi.
      destruct (IH _ (x + (len L + 2 + 1)) y row' ltac:(lia) ltac:(lia)
                  Heq' i k Hi) as (HX & HW & HLab).
      split; [|split; [done|exact HLab]].
      rewrite HX. cbn [take]. unfold row_width. simpl. lia.
Qed.

(** X12.  In a row that fits the machine integers, the key number [i]
    starts at the column that the labels before it take, each with two
    columns of padding and one of gap, and is two columns wider than its
    label; so the keys of a row lie side by side from column 0, a key
    ending before the next one starts. *)
Theorem addRow_columns labels y row :
  row_width labels <= max_int →
  addRow [] labels y = row →
  (∀ (i : nat) k, row !! i = Some k →
     X k = row_width (take i labels) ∧ W k = len (Label k) + 2)
  ∧ (∀ (i j : nat) k k', (i < j)%nat →
       row !! i = Some k → row !! j = Some k' → X k + W k < X k').
Proof.
  intros Hfit Heq.
  assert (∀ (i : nat) k, row !! i = Some k →
            X k = 0 + row_width (take i labels)
            ∧ W k = len (Label k) + 2
            ∧ ∃ L, labels !! i = Some L ∧ Label k = L) as Hcol.
  { apply (addRow_from_columns labels [] 0 y row); [done|lia|done]. }
  split.
  - intros i k Hi. destruct (Hcol i k Hi) as (HX & HW & _).
    split; [lia|done].
  - intros i j k k' Hij Hi Hj.
    destruct (Hcol i k Hi) as (HX & HW & L & HL & HLab).
    destruct (Hcol j k' Hj) as (HX' & _).
    pose proof (row_width_take labels (S i) j ltac:(lia)) as Hmono.
    rewrite (take_S_r _ _ _ HL) in Hmono.
    assert (row_width (take i labels ++ [L])
            = row_width (take i labels) + (len L + 3)) as Hsnoc.
    { unfold row_width. generalize (take i labels). intros l.
      induction l as [|a l IHl]; simpl; lia. }
    rewrite Hsnoc in Hmono. subst L. lia.
Qed.

(** ** The frame *)

Lemma range_from_indices fuel : ∀ i s j r,
  (j, r) ∈ range_from fuel i s → i <= j < i + Z.of_nat (length s).
Proof.
  induction fuel as [|fuel IH]; intros i s j r Hin.
  - destruct s; by apply elem_of_nil in Hin.
  - destruct s as [|b t]; [by apply elem_of_nil in Hin|].
    cbn [range_from] in Hin.
    pose proof (DecodeRune_width (b :: t) ltac:(done)) as Hw.
    destruct (utf8.DecodeRune (b :: t)) as [r0 w]. cbn [snd] in Hw.
    apply elem_of_cons in Hin as [Heq|Hin].
    + simplify_eq. cbn [length]. lia.
    + apply IH in Hin. rewrite length_drop in Hin. lia.
Qed.

Lemma length_bytes s : Z.of_nat (length (bytes s)) = len s.
Proof.
  unfold bytes, len. rewrite length_fmap. f_equal.
  induction s as [|c s IH]; cbn; [done|]. by rewrite IH.
Qed.

Lemma range_string_indices s j r :
  (j, r) ∈ range_string s → 0 <= j < len s.
Proof.
  unfold range_string. cbv zeta. intros Hin%range_from_indices.
  rewrite length_bytes in Hin. lia.
Qed.

Lemma drawKey_style k style :
  Forall (λ c, ∃ x y r, c = tcell.SetContent x y r style) (drawKey k style).
Proof.
  unfold drawKey. apply Forall_app. split.
  - apply Forall_forall. intros c Hc.
    apply list_elem_of_bind in Hc as (dx & Hc & _).
    apply list_elem_of_bind in Hc as (dy & Hc & _).
    apply list_elem_of_singleton in Hc. eauto.
  - cbv zeta. apply Forall_forall. intros c Hc.
    apply list_elem_of_fmap in Hc as ([i r] & -> & _). eauto.
Qed.

(** X13.  For a key as [addRow] builds it, two columns wider than its
    label, of at least one row and within the machine integers, [drawKey]
    paints every cell of the rectangle of the key and no other cell, all
    in the style it is given; the runes of the label go on the first row,
    from the second column of the key. *)
Theorem drawKey_paints_its_rectangle k style :
  W k = len (Label k) + 2 → 1 <= H k → 0 <= X k → 0 <= Y k →
  X k + W k <= max_int → Y k + H k <= max_int →
  Forall (λ c, ∃ x y r, c = tcell.SetContent x y r style
                        ∧ X k <= x < X k + W k ∧ Y k <= y < Y k + H k)
         (drawKey k style)
  ∧ (∀ x y, X k <= x < X k + W k → Y k <= y < Y k + H k →
            tcell.SetContent x y 32 style ∈ drawKey k style)
  ∧ (∀ i r, (i, r) ∈ range_string (Label k) →
            tcell.SetContent (X k + 1 + i) (Y k) r style ∈ drawKey k style).
Proof.
  unfold max_int. intros HW HH HX HY HfitX HfitY.
  assert (0 <= len (Label k)) as Hlen by (unfold len; lia).
  assert (int_add (X k) (Z.quot (int_sub (W k) (len (Label k))) 2)
          = X k + 1) as Hstart.
  { unfold int_add, int_sub. rewrite HW.
    replace (len (Label k) + 2 - len (Label k)) with 2 by lia.
    rewrite (int_wrap_id 2) by lia. change (Z.quot 2 2) with 1.
    apply int_wrap_id. lia. }
  unfold drawKey. rewrite Hstart. split; [|split].
  - apply Forall_app. split.
    + apply Forall_forall. intros c Hc.
      apply list_elem_of_bind in Hc as (dx & Hc & Hdx%elem_of_seqZ).
      apply list_elem_of_bind in Hc as (dy & Hc & Hdy%elem_of_seqZ).
      apply list_elem_of_singleton in Hc. subst c.
      unfold int_add. rewrite !int_wrap_id by lia.
      eexists _, _, _. split; [done|]. lia.
    + apply Forall_forall. intros c Hc.
      apply list_elem_of_fmap in Hc as ([i r] & -> & Hi).
      apply range_string_indices in Hi.
      unfold int_add. rewrite int_wrap_id by lia.
      eexists _, _, _. split; [done|]. lia.
  - intros x y Hx Hy. apply elem_of_app. left.
    apply list_elem_of_bind. exists (x - X k). split; [|apply elem_of_seqZ; lia].
    apply list_elem_of_bind. exists (y - Y k). split; [|apply elem_of_seqZ; lia].
    apply list_elem_of_singleton. unfold int_add.
    rewrite !int_wrap_id by lia. f_equal; lia.
  - intros i r Hi. apply elem_of_app. right.
    apply list_elem_of_fmap. exists (i, r). split; [|done].
    apply range_string_indices in Hi as Hb.
    unfold int_add. rewrite int_wrap_id by lia. done.
Qed.

Lemma draw_keyboard_elem keys p c :
  c ∈ draw_keyboard keys p ↔
  ∃ k, k ∈ keys
       ∧ c ∈ drawKey k (if is_pressed p (Label k)
                        then tcell.StyleBlue else tcell.StyleDefault).
Proof.
  unfold draw_keyboard. rewrite list_elem_of_bind.
  split; intros (k & ? & ?); eauto.
Qed.

Lemma draw_line_cells w y runes c :
  c ∈ draw_line w y runes →
  ∃ j r, c = tcell.SetContent j y r tcell.StyleDefault
         ∧ (j, r) ∈ runes ∧ j < w.
Proof.
  induction runes as [|[j r] rest IH]; cbn [draw_line].
  - by intros ?%elem_of_nil.
  - destruct (Z.leb_spec w j); [by intros ?%elem_of_nil|].
    intros [->|Hin]%elem_of_cons.
    + exists j, r. split; [done|]. split; [apply elem_of_cons; by left|done].
    + destruct (IH Hin) as (j' & r' & -> & Hin' & Hj').
      exists j', r'. split; [done|]. split; [|done].
      apply elem_of_cons. by right.
Qed.

Lemma draw_logs_cells w y logs c :
  c ∈ draw_logs w y logs →
  ∃ (i : nat) line j r,
    logs !! i = Some line
    ∧ c = tcell.SetContent j (int_add (int_add y 1) (Z.of_nat i)) r
            tcell.StyleDefault
    ∧ (j, r) ∈ range_string line ∧ j < w.
Proof.
  unfold draw_logs. intros Hin. apply list_elem_of_In, in_concat in Hin
    as (cells & Hcells & Hc).
  apply list_elem_of_In, elem_of_lookup_imap in Hcells
    as (i & line & -> & Hline).
  apply list_elem_of_In, draw_line_cells in Hc as (j & r & -> & Hin & Hj).
  eauto 10.
Qed.

(** X14.  The frame reads the map of pressed labels at the labels of the
    keys only: two maps that agree there give the same frame, so that a
    mark on a label that no key of the layout bears shows nowhere. *)
Theorem drawAll_reads_key_labels w keys logs p p' :
  (∀ k, k ∈ keys → is_pressed p (Label k) = is_pressed p' (Label k)) →
  drawAll w keys logs p = drawAll w keys logs p'.
Proof.
  intros Hagree. unfold drawAll.
  assert (draw_keyboard keys p = draw_keyboard keys p') as ->; [|done].
  unfold draw_keyboard. induction keys as [|k rest IH]; [done|].
  cbn [mbind list_bind]. rewrite Hagree by (apply elem_of_cons; by left).
  f_equal. apply IH. intros k' Hk'. apply Hagree, elem_of_cons. by right.
Qed.

(** X15.  The cells of a frame in the highlight style are those of the
    keys whose label is marked: a cell is painted blue exactly when
    [drawKey] paints it for a key of the layout with a marked label.  The
    separator and the log are never highlighted. *)
Theorem drawAll_highlights_marked_keys w keys logs p frame x y r :
  drawAll w keys logs p = Some frame →
  (tcell.SetContent x y r tcell.StyleBlue ∈ frame ↔
   ∃ k, k ∈ keys ∧ is_pressed p (Label k) = true
        ∧ tcell.SetContent x y r tcell.StyleBlue
          ∈ drawKey k tcell.StyleBlue).
Proof.
  unfold drawAll. destruct (sepY keys) as [row|]; [|done].
  cbn [mbind option_bind]. intros Heq. apply (inj Some) in Heq. subst frame.
  rewrite elem_of_cons, !elem_of_app, draw_keyboard_elem. split.
  - intros [Hclear|[(k & Hk & Hc)|[Hsep|Hlog]]]; [done| | |].
    + exists k. split; [done|].
      destruct (is_pressed p (Label k)); [done|].
      pose proof (drawKey_style k tcell.StyleDefault) as Hst.
      rewrite Forall_forall in Hst.
      destruct (Hst _ Hc) as (? & ? & ? & ?). done.
    + unfold draw_separator in Hsep.
      apply list_elem_of_fmap in Hsep as (? & ? & _). done.
    + apply draw_logs_cells in Hlog as (? & ? & ? & ? & _ & ? & _). done.
  - intros (k & Hk & Hp & Hc). right. left. exists k. split; [done|].
    by rewrite Hp.
Qed.

Lemma safeTrim_initKeys_length h l l' :
  0 <= h <= max_int →
  safeTrim initKeys h l = Some l' →
  Z.of_nat (length l') <= Z.max 0 (h - 36).
Proof.
  intros Hh. rewrite safeTrim_initKeys by done.
  intros Heq. apply (inj Some) in Heq. subst l'.
  repeat case_match; rewrite ?length_drop; cbn [length]; lia.
Qed.

(** X16.  The frame drawn after a key event that [main] handles is
    [Clear], the keyboard, the separator on row 35, the log, then [Show].
    The separator and the log are clipped to the width of the screen, and
    the log lines lie on the rows below the separator and above the bottom
    of the screen: the trim leaves no line to draw off the screen. *)
Theorem log_drawn_inside_screen st ev env st' out :
  0 <= scrH env <= max_int →
  loop_body initKeys st (tcell.EvKey ev) env = Continue st' out →
  out = tcell.Clear :: draw_keyboard initKeys (pressed st')
          ++ draw_separator (scrW env) 35
          ++ draw_logs (scrW env) 35 (logs st') ++ [tcell.Show]
  ∧ Forall (λ c, ∃ x, c = tcell.SetContent x 35 45 tcell.StyleDefault
                      ∧ 0 <= x < scrW env)
           (draw_separator (scrW env) 35)
  ∧ Forall (λ c, ∃ x y r, c = tcell.SetContent x y r tcell.StyleDefault
                          ∧ 0 <= x < scrW env ∧ 35 < y < scrH env)
           (draw_logs (scrW env) 35 (logs st')).
Proof.
  intros Hh Hstep.
  apply loop_body_continue in Hstep
    as (_ & Htrim & _ & _ & _ & _ & frame & Hframe & ->).
  apply (safeTrim_initKeys_length _ _ _ Hh) in Htrim.
  unfold drawAll in Hframe. rewrite sepY_initKeys in Hframe.
  cbn [mbind option_bind] in Hframe. apply (inj Some) in Hframe.
  subst frame. split; [|split].
  - cbn [app]. by rewrite <- !app_assoc.
  - apply Forall_forall. intros c Hc. unfold draw_separator in Hc.
    apply list_elem_of_fmap in Hc as (x & -> & Hx%elem_of_seqZ).
    exists x. split; [done|lia].
  - apply Forall_forall. intros c Hc.
    apply draw_logs_cells in Hc as (i & line & j & r & Hi & -> & Hj & Hw).
    apply range_string_indices in Hj. apply lookup_lt_Some in Hi.
    unfold max_int in Hh. unfold int_add.
    rewrite (int_wrap_id (35 + 1)) by lia.
    rewrite int_wrap_id by lia.
    eexists _, _, _. split; [done|]. lia.
Qed.

(** X17.  [main] starts with a frame of the empty log and the empty map of
    pressed labels followed by [Show]; no cell of that frame is in the
    highlight style.  The calls of the loop come after it. *)
Theorem main_first_frame w0 inputs st out :
  main w0 inputs = Continue st out →
  ∃ frame rest,
    out = frame ++ tcell.Show :: rest
    ∧ drawAll w0 initKeys [] ∅ = Some frame
    ∧ main_loop initial inputs = Continue st rest
    ∧ ∀ x y r, tcell.SetContent x y r tcell.StyleBlue ∉ frame.
Proof.
  unfold main.
  destruct (drawAll w0 initKeys [] ∅) as [frame|] eqn:Hframe; [|done].
  destruct (main_loop initial inputs) as [st1 rest| |] eqn:Hrun; [|done..].
  intros Heq. simplify_eq. exists frame, rest.
  split; [done|]. split; [done|]. split; [done|].
  intros x y r Hin.
  unfold drawAll in Hframe. rewrite sepY_initKeys in Hframe.
  cbn [mbind option_bind] in Hframe. apply (inj Some) in Hframe.
  subst frame.
  rewrite elem_of_cons, !elem_of_app, draw_keyboard_elem in Hin.
  destruct Hin as [Hclear|[(k & Hk & Hc)|[Hsep|Hlog]]]; [done| | |].
  - change (is_pressed ∅ (Label k)) with false in Hc.
    pose proof (drawKey_style k tcell.StyleDefault) as Hst.
    rewrite Forall_forall in Hst.
    destruct (Hst _ Hc) as (? & ? & ? & ?). done.
  - unfold draw_separator in Hsep.
    apply list_elem_of_fmap in Hsep as (? & ? & _). done.
  - apply draw_logs_cells in Hlog as (? & ? & ? & ? & _ & ? & _). done.
Qed.

Lemma count_calls_app p a b :
  count_calls p (a ++ b) = (count_calls p a + count_calls p b)%nat.
Proof. unfold count_calls. by rewrite List.filter_app, length_app. Qed.

Lemma count_calls_cells p cells :
  Forall (λ c, ∃ x y r s, c = tcell.SetContent x y r s) cells →
  (∀ x y r s, p (tcell.SetContent x y r s) = false) →
  count_calls p cells = 0%nat.
Proof.
  intros Hcells Hp. unfold count_calls.
  induction Hcells as [|c cells (x & y & r & s & ->) _ IH]; [done|].
  cbn [List.filter]. by rewrite Hp.
Qed.

Lemma drawAll_cells w keys logs p frame :
  drawAll w keys logs p = Some frame →
  ∃ cells, frame = tcell.Clear :: cells
           ∧ Forall (λ c, ∃ x y r s, c = tcell.SetContent x y r s) cells.
Proof.
  unfold drawAll. destruct (sepY keys) as [row|]; [|done].
  cbn [mbind option_bind]. intros Heq. apply (inj Some) in Heq. subst frame.
  eexists. split; [done|]. apply Forall_forall. intros c.
  rewrite !elem_of_app, draw_keyboard_elem.
  intros [(k & _ & Hc)|[Hsep|Hlog]].
  - pose proof (drawKey_style k
      (if is_pressed p (Label k) then tcell.StyleBlue
       else tcell.StyleDefault)) as Hst.
    rewrite Forall_forall in Hst.
    destruct (Hst _ Hc) as (? & ? & ? & ->). eauto.
  - unfold draw_separator in Hsep.
    apply list_elem_of_fmap in Hsep as (? & -> & _). eauto.
  - apply draw_logs_cells in Hlog as (? & ? & ? & ? & _ & -> & _). eauto.
Qed.

(** X18.  The calls on the screen of a run that is still polling: one
    [Clear] and one [Show] for every key event, one [Sync] for every
    resize event, and nothing for the other events. *)
Theorem screen_calls_of_a_run inputs : ∀ st st' out,
  main_loop st inputs = Continue st' out →
  count_calls is_clear out = count_events is_key inputs
  ∧ count_calls is_show out = count_events is_key inputs
  ∧ count_calls is_sync out = count_events is_resize inputs.
Proof.
  induction inputs as [|[ev env] rest IH]; intros st st' out.
  - cbn. intros Heq. by simplify_eq.
  - cbn [main_loop].
    destruct (loop_body initKeys st ev env) as [st1 out1| |] eqn:E; [|done..].
    destruct (main_loop st1 rest) as [st2 out2| |] eqn:E2; [|done..].
    intros Heq. simplify_eq.
    destruct (IH _ _ _ E2) as (Hc & Hs & Hy).
    rewrite !count_calls_app, Hc, Hs, Hy.
    unfold count_events. cbn [List.filter fst].
    destruct ev as [kev| |].
    + apply loop_body_continue in E
        as (_ & _ & _ & _ & _ & _ & frame & Hframe & ->).
      apply drawAll_cells in Hframe as (cells & -> & Hcells).
      cbn [is_key is_resize length].
      change (tcell.Clear :: cells) with ([tcell.Clear] ++ cells).
      rewrite !count_calls_app.
      rewrite !(count_calls_cells _ cells Hcells) by done.
      cbn. lia.
    + cbn in E. simplify_eq. cbn. lia.
    + cbn in E. simplify_eq. cbn. lia.
Qed.

End Program.

(** ** Examples

    The theorems above at concrete inputs, with the ASCII instance of the
    Unicode interface. *)

(** The key [a] on a screen of 38 rows, where two lines fit, with two lines
    in the log: the oldest line goes. *)
Lemma log_bounded_by_capacity_witness :
  ∃ st' out,
    0 <= scrH rows_38 <= max_int
    ∧ @loop_body ascii_tables initKeys two_lines (tcell.EvKey key_a) rows_38
      = Continue st' out
    ∧ logs st' = ["two"; "09:05:59 | A       | Code=256 | Mods=None"].
Proof.
  assert (0 <= scrH rows_38 <= max_int) as Hh
    by (vm_compute; split; discriminate).
  assert (∃ st' out,
            @loop_body ascii_tables initKeys two_lines (tcell.EvKey key_a)
              rows_38 = Continue st' out)
    as (st' & out & Hstep) by (eexists _, _; vm_compute; reflexivity).
  exists st', out. split; [exact Hh|]. split; [exact Hstep|].
  destruct (log_bounded_by_capacity _ _ _ _ _ Hh Hstep)
    as (y & Hy & _ & _ & Hover & _).
  rewrite sepY_initKeys in Hy. injection Hy as <-.
  destruct Hover as (Hlogs & _); [vm_compute; split; reflexivity|].
  rewrite Hlogs. vm_compute. reflexivity.
Defined.

(** Five keys on a screen of 38 rows: two lines are left. *)
Lemma fixed_layout_capacity_witness :
  ∃ st' out,
    36 <= 38 <= max_int
    ∧ Forall (λ i, scrH i.2 = 38) (replicate 5 (tcell.EvKey key_a, rows_38))
    ∧ Z.of_nat (length (@entries_of ascii_tables
                          (replicate 5 (tcell.EvKey key_a, rows_38))))
      = 38 - 36 + 3
    ∧ @main_loop ascii_tables initial
        (replicate 5 (tcell.EvKey key_a, rows_38))
      = Continue st' out
    ∧ Z.of_nat (length (logs st')) = 38 - 36.
Proof.
  assert (36 <= 38 <= max_int) as Hh by (vm_compute; split; discriminate).
  assert (∃ st' out,
            @main_loop ascii_tables initial
              (replicate 5 (tcell.EvKey key_a, rows_38)) = Continue st' out)
    as (st' & out & Hrun) by (eexists _, _; vm_compute; reflexivity).
  exists st', out.
  assert (Forall (λ i : tcell.Event * Env, scrH i.2 = 38)
            (replicate 5 (tcell.EvKey key_a, rows_38))) as Hall
    by (repeat constructor).
  assert (Z.of_nat (length (@entries_of ascii_tables
                              (replicate 5 (tcell.EvKey key_a, rows_38))))
          = 38 - 36 + 3) as Hlen
    by (vm_compute; reflexivity).
  split; [exact Hh|]. split; [exact Hall|]. split; [exact Hlen|].
  split; [exact Hrun|].
  apply (fixed_layout_capacity _ _ _ _ Hh Hall Hlen Hrun).
Defined.

(** The fifth Escape press: after four of them the Escape counter is 4;
    the fifth takes it to 5 and [main] returns. *)
Lemma exit_counters_monotone_threshold_witness :
  ∃ st,
    @reachable ascii_tables st
    ∧ escCount st = 4
    ∧ ∃ st',
        outcome_state
          (@loop_body ascii_tables initKeys st (tcell.EvKey key_escape)
             rows_38)
        = Some st'
        ∧ escCount st' = 5
        ∧ returns
            (@loop_body ascii_tables initKeys st (tcell.EvKey key_escape)
               rows_38).
Proof.
  assert (∃ st out,
            @main_loop ascii_tables initial
              (replicate 4 (tcell.EvKey key_escape, rows_38))
            = Continue st out
            ∧ escCount st = 4)
    as (st & out & Hrun & Hfour)
    by (eexists _, _; split; vm_compute; reflexivity).
  assert (@reachable ascii_tables st) as Hreach
    by (exists (replicate 4 (tcell.EvKey key_escape, rows_38)), out;
        exact Hrun).
  exists st. split; [exact Hreach|]. split; [exact Hfour|].
  destruct (exit_counters_monotone_threshold (tables := ascii_tables)
              st (tcell.EvKey key_escape) rows_38 Hreach)
    as (_ & st' & Hst' & _ & _ & _ & Hinc & _ & _ & _ & _ & _ & Hret).
  assert (escCount st' = 5) as Hfive.
  { rewrite (Hinc key_escape eq_refl eq_refl), Hfour. reflexivity. }
  exists st'. split; [exact Hst'|]. split; [exact Hfive|].
  apply Hret. left. exact Hfive.
Defined.

(** The key [a] from the initial state: the empty set is included in the
    set after it. *)
Lemma pressed_only_grows_witness :
  ∃ s',
    @main_trace ascii_tables initial [(tcell.EvKey key_a, rows_38)]
      !! 0%nat = Some initial
    ∧ @main_trace ascii_tables initial [(tcell.EvKey key_a, rows_38)]
        !! 1%nat = Some s'
    ∧ pressed_set (pressed initial) ⊆ pressed_set (pressed s')
    ∧ dom (pressed initial) ⊆ dom (pressed s').
Proof.
  assert (∃ s', @main_trace ascii_tables initial
                  [(tcell.EvKey key_a, rows_38)] !! 1%nat = Some s')
    as (s' & Hs') by (eexists; vm_compute; reflexivity).
  exists s'. split; [reflexivity|]. split; [exact Hs'|].
  apply (pressed_only_grows (tables := ascii_tables)
           [(tcell.EvKey key_a, rows_38)] initial 0%nat initial s');
    [reflexivity|exact Hs'].
Defined.

(** The control code 3, Ctrl+C without the modifier bit: ["Ctrl"] is
    marked and the label is ["C"]. *)
Lemma ctrl_mark_and_control_letters_witness :
  ∃ st' out,
    @loop_body ascii_tables initKeys initial (tcell.EvKey key_ctrl_c)
      rows_38
    = Continue st' out
    ∧ is_pressed (pressed st') "Ctrl" = true
    ∧ @labelFromEvent ascii_tables key_ctrl_c = "C".
Proof.
  assert (∃ st' out,
            @loop_body ascii_tables initKeys initial
              (tcell.EvKey key_ctrl_c) rows_38 = Continue st' out)
    as (st' & out & Hstep) by (eexists _, _; vm_compute; reflexivity).
  exists st', out. split; [exact Hstep|].
  destruct (ctrl_mark_and_control_letters _ _ _ _ _ Hstep)
    as [Hctrl Hletter].
  split.
  - apply Hctrl. right. right. vm_compute. split; discriminate.
  - rewrite Hletter; [reflexivity| |].
    + vm_compute. split; discriminate.
    + apply (bool_decide_unpack _). vm_compute. exact I.
Defined.

(** The code 300 is no key the program knows. *)
Lemma unrecognised_key_is_labelled_witness :
  unrecognised (tcell.Key key_code_300)
  ∧ @labelFromEvent ascii_tables key_code_300 = "Key[300]"
  ∧ ∃ st' out,
      @loop_body ascii_tables initKeys initial (tcell.EvKey key_code_300)
        rows_38
      = Continue st' out
      ∧ escCount st' = 0 ∧ enterCount st' = 0 ∧ spaceCount st' = 0.
Proof.
  assert (unrecognised (tcell.Key key_code_300)) as Hun.
  { split; [|split].
    - apply (bool_decide_unpack _). vm_compute. exact I.
    - vm_compute. discriminate.
    - vm_compute. intros [_ Hle]. apply Hle. reflexivity. }
  split; [exact Hun|].
  destruct (unrecognised_key_is_labelled (tables := ascii_tables)
              initial key_code_300 rows_38 Hun)
    as (Hlabel & _ & _ & st' & out & Hstep & He & Hn & Hs & _).
  split; [exact Hlabel|].
  exists st', out. split; [exact Hstep|].
  split; [exact He|]. split; [exact Hn|exact Hs].
Defined.

(** The line of the code 13: the label ["Enter"] is padded to seven
    runes, the code to three. *)
Lemma log_line_fields_witness :
  ∃ st' out,
    37 <= scrH rows_38 <= max_int
    ∧ @loop_body ascii_tables initKeys initial (tcell.EvKey key_code_13)
        rows_38
      = Continue st' out
    ∧ last (logs st') = Some "09:05:59 | Enter   | Code= 13 | Mods=None"
    ∧ RuneCountInString
        (fmt_s_left 7 (@labelFromEvent ascii_tables key_code_13))
      = 7
    ∧ RuneCountInString (fmt_d_right 3 (tcell.Key key_code_13)) = 3
    ∧ bytes (time_Format (now rows_38)) = [48; 57; 58; 48; 53; 58; 53; 57].
Proof.
  assert (37 <= scrH rows_38 <= max_int) as Hh
    by (vm_compute; split; discriminate).
  assert (∃ st' out,
            @loop_body ascii_tables initKeys initial
              (tcell.EvKey key_code_13) rows_38 = Continue st' out)
    as (st' & out & Hstep) by (eexists _, _; vm_compute; reflexivity).
  exists st', out. split; [exact Hh|]. split; [exact Hstep|].
  destruct (log_line_fields _ _ _ _ _ Hh Hstep)
    as (Hlast & _ & _ & Hts & _ & Hwidth & _ & Hcode).
  split; [exact Hlast|]. split; [rewrite Hwidth; reflexivity|].
  split; [rewrite Hcode; reflexivity|]. rewrite Hts. reflexivity.
Defined.

(** The fifth Escape press. *)
Lemma termination_before_mutation_witness :
  reaches_threshold four_escapes key_escape
  ∧ ∃ st',
      @loop_body ascii_tables initKeys four_escapes
        (tcell.EvKey key_escape) rows_38
      = Return st'
      ∧ pressed st' = pressed four_escapes
      ∧ logs st' = logs four_escapes.
Proof.
  assert (reaches_threshold four_escapes key_escape) as Hthr
    by (left; split; reflexivity).
  split; [exact Hthr|].
  apply (termination_before_mutation (tables := ascii_tables)
           initKeys four_escapes key_escape rows_38 Hthr).
Defined.

(** The code 13 from the initial state. *)
Lemma control_codes_of_named_keys_witness :
  @reachable ascii_tables initial
  ∧ tcell.Key key_code_13 = 13
  ∧ @labelFromEvent ascii_tables key_code_13 = "Enter"
  ∧ ∃ st',
      outcome_state
        (@loop_body ascii_tables initKeys initial (tcell.EvKey key_code_13)
           rows_38)
      = Some st'
      ∧ enterCount st' = enterCount initial + 1.
Proof.
  assert (@reachable ascii_tables initial) as Hreach
    by (exists [], []; reflexivity).
  split; [exact Hreach|]. split; [reflexivity|].
  destruct (control_codes_of_named_keys (tables := ascii_tables)
              initial key_code_13 rows_38 Hreach) as (Henter & _).
  destruct (Henter eq_refl) as (_ & Hlabel & _ & Hcount & _).
  split; [exact Hlabel|exact Hcount].
Defined.

(** ** Where the program differs from what is said of it *)

(** On a screen of 40 rows the separator is on row 35, not 36, and the log
    holds 4 lines, not 40 - 37 = 3: of 40 - 37 + 3 = 6 lines appended, four
    are left and the oldest two are dropped. *)
Lemma fixed_layout_capacity_counterexample :
  sepY initKeys = Some 35
  ∧ sepY initKeys ≠ Some 36
  ∧ safeTrim initKeys 40 ["1"; "2"; "3"; "4"; "5"; "6"]
    = Some ["3"; "4"; "5"; "6"]
  ∧ ∃ st' out,
      Z.of_nat (length (@entries_of ascii_tables
                          (replicate 6 (tcell.EvKey key_a, rows_40))))
      = 40 - 37 + 3
      ∧ @main_loop ascii_tables initial
          (replicate 6 (tcell.EvKey key_a, rows_40))
        = Continue st' out
      ∧ Z.of_nat (length (logs st')) = 4
      ∧ Z.of_nat (length (logs st')) ≠ 40 - 37
      ∧ logs st'
        = drop 2 (@entries_of ascii_tables
                    (replicate 6 (tcell.EvKey key_a, rows_40))).
Proof.
  split; [vm_compute; reflexivity|].
  split; [vm_compute; discriminate|].
  split; [vm_compute; reflexivity|].
  eexists _, _.
  split; [vm_compute; reflexivity|].
  split; [vm_compute; reflexivity|].
  split; [vm_compute; reflexivity|].
  split; [vm_compute; discriminate|].
  vm_compute. reflexivity.
Qed.

(** The code 13 is in the control-code range of the letters, where it is
    the code of [M]; its label is ["Enter"], not ["M"]. *)
Lemma ctrl_mark_and_control_letters_counterexample :
  tcell.KeyCtrlA <= tcell.Key key_code_13 <= tcell.KeyCtrlZ
  ∧ capital (tcell.Key key_code_13 - tcell.KeyCtrlA) = "M"
  ∧ string_of_rune (65 + (tcell.Key key_code_13 - tcell.KeyCtrlA)) = "M"
  ∧ @labelFromEvent ascii_tables key_code_13 = "Enter"
  ∧ @labelFromEvent ascii_tables key_code_13 ≠ "M".
Proof.
  split; [vm_compute; split; discriminate|].
  split; [vm_compute; reflexivity|].
  split; [vm_compute; reflexivity|].
  split; [vm_compute; reflexivity|]. vm_compute. discriminate.
Qed.

(** The label ["Backspace"] has nine runes: its field is nine runes wide,
    not seven, and nothing of it is cut. *)
Lemma log_line_fields_counterexample :
  @labelFromEvent ascii_tables key_code_8 = "Backspace"
  ∧ fmt_s_left 7 (@labelFromEvent ascii_tables key_code_8) = "Backspace"
  ∧ RuneCountInString (fmt_s_left 7 (@labelFromEvent ascii_tables key_code_8))
    = 9
  ∧ RuneCountInString (fmt_s_left 7 (@labelFromEvent ascii_tables key_code_8))
    ≠ 7
  ∧ @logLine ascii_tables (now rows_38) key_code_8
    = "09:05:59 | Backspace | Code=  8 | Mods=None".
Proof.
  split; [vm_compute; reflexivity|].
  split; [vm_compute; reflexivity|].
  split; [vm_compute; reflexivity|].
  split; [vm_compute; discriminate|].
  vm_compute. reflexivity.
Qed.

(** Four lines are in the log on a screen of 40 rows; the screen shrinks
    to 38 rows, where two lines fit.  The resize event makes one call,
    [Sync]: no frame is drawn (a frame starts with [Clear]), and the four
    lines stay in the log, which a trim at the new height would cut. *)
Lemma resize_only_syncs_counterexample :
  ∃ st out0 st' out,
    @main_loop ascii_tables initial
      (replicate 4 (tcell.EvKey key_a, rows_40))
    = Continue st out0
    ∧ @loop_body ascii_tables initKeys st tcell.EvResize rows_38
      = Continue st' out
    ∧ out = [tcell.Sync]
    ∧ (tcell.Clear ∉ out)
    ∧ (tcell.Show ∉ out)
    ∧ ¬ (∃ frame before after,
           drawAll (scrW rows_38) initKeys (logs st') (pressed st')
           = Some frame
           ∧ out = before ++ frame ++ after)
    ∧ Z.of_nat (length (logs st')) = 4
    ∧ safeTrim initKeys (scrH rows_38) (logs st') ≠ Some (logs st').
Proof.
  eexists _, _, _, _.
  split; [vm_compute; reflexivity|].
  split; [reflexivity|].
  split; [reflexivity|].
  split; [by intros ?%list_elem_of_singleton|].
  split; [by intros ?%list_elem_of_singleton|].
  split.
  { intros (frame & before & after & Hframe & Hout).
    apply drawAll_starts_with_clear in Hframe as [rest ->].
    assert (tcell.Clear ∈ [tcell.Sync]) as Hin.
    { rewrite Hout. apply elem_of_app. right. apply elem_of_cons. by left. }
    by apply list_elem_of_singleton in Hin. }
  split; [vm_compute; reflexivity|].
  vm_compute. discriminate.
Qed.

(** ** Examples for the further properties *)

(** Escape, [a], Escape: the Escape counter is 2. *)
Lemma counters_count_events_witness :
  ∃ st' out,
    @main_loop ascii_tables initial
      [(tcell.EvKey key_escape, rows_38); (tcell.EvKey key_a, rows_38);
       (tcell.EvKey key_escape, rows_38)]
    = Continue st' out
    ∧ escCount st' = 2.
Proof.
  assert (∃ st' out,
            @main_loop ascii_tables initial
              [(tcell.EvKey key_escape, rows_38);
               (tcell.EvKey key_a, rows_38);
               (tcell.EvKey key_escape, rows_38)] = Continue st' out)
    as (st' & out & Hrun) by (eexists _, _; vm_compute; reflexivity).
  exists st', out. split; [exact Hrun|].
  destruct (counters_count_events _ _ _ Hrun) as (He & _).
  rewrite He. vm_compute. reflexivity.
Defined.

(** Five Escape keys. *)
Lemma five_presses_return_witness :
  5 <= count_keys is_escape (replicate 5 (tcell.EvKey key_escape, rows_38))
  ∧ ∃ st',
      @main_loop ascii_tables initial
        (replicate 5 (tcell.EvKey key_escape, rows_38))
      = Return st'.
Proof.
  assert (5 <= count_keys is_escape
                 (replicate 5 (tcell.EvKey key_escape, rows_38))) as Hfive
    by (vm_compute; discriminate).
  split; [exact Hfive|].
  apply (five_presses_return (tables := ascii_tables)). left. exact Hfive.
Defined.

(** The key [a] after two lines, on a screen with room for two. *)
Lemma log_is_tail_of_history_witness :
  ∃ st' out,
    @main_loop ascii_tables two_lines [(tcell.EvKey key_a, rows_38)]
    = Continue st' out
    ∧ logs st'
      `suffix_of` ["one"; "two"; "09:05:59 | A       | Code=256 | Mods=None"].
Proof.
  assert (∃ st' out,
            @main_loop ascii_tables two_lines [(tcell.EvKey key_a, rows_38)]
            = Continue st' out)
    as (st' & out & Hrun) by (eexists _, _; vm_compute; reflexivity).
  exists st', out. split; [exact Hrun|].
  apply (log_is_tail_of_history _ _ _ _ Hrun).
Defined.

(** The key [a], then Escape: ["A"] is still marked. *)
Lemma labels_stay_marked_witness :
  ∃ st' out,
    @main_loop ascii_tables initial
      [(tcell.EvKey key_a, rows_38); (tcell.EvKey key_escape, rows_38)]
    = Continue st' out
    ∧ is_pressed (pressed st') "A" = true.
Proof.
  assert (∃ st' out,
            @main_loop ascii_tables initial
              [(tcell.EvKey key_a, rows_38);
               (tcell.EvKey key_escape, rows_38)] = Continue st' out)
    as (st' & out & Hrun) by (eexists _, _; vm_compute; reflexivity).
  exists st', out. split; [exact Hrun|].
  destruct (labels_stay_marked _ _ _ Hrun) as (Hall & _).
  apply (Hall key_a rows_38). apply elem_of_cons. left. reflexivity.
Defined.

(** The capital [A] with the Shift modifier marks ["Shift"], not
    ["CapsLock"]. *)
Lemma modifier_marks_witness :
  ∃ st' out,
    @loop_body ascii_tables initKeys initial (tcell.EvKey key_shift_A)
      rows_38
    = Continue st' out
    ∧ is_pressed (pressed st') "Shift" = true
    ∧ ¬ is_pressed (pressed st') "CapsLock" = true.
Proof.
  assert (∃ st' out,
            @loop_body ascii_tables initKeys initial
              (tcell.EvKey key_shift_A) rows_38 = Continue st' out)
    as (st' & out & Hstep) by (eexists _, _; vm_compute; reflexivity).
  exists st', out. split; [exact Hstep|].
  destruct (modifier_marks _ _ _ _ _ Hstep) as (_ & Hshift & Hcaps & _).
  split.
  - apply Hshift. right. vm_compute. discriminate.
  - intros Hc. apply Hcaps in Hc as [Hc|(_ & _ & _ & Hc)].
    + vm_compute in Hc. discriminate.
    + vm_compute in Hc. discriminate.
Defined.

(** The small and the capital [a]. *)
Lemma letters_fold_to_capital_witness :
  tcell.Key key_a = tcell.KeyRune
  ∧ tcell.Key key_A = tcell.KeyRune
  ∧ 97 <= tcell.Rune key_a <= 122
  ∧ tcell.Rune key_A = tcell.Rune key_a - 32
  ∧ @labelFromEvent ascii_tables key_a = "A"
  ∧ @labelFromEvent ascii_tables key_A = @labelFromEvent ascii_tables key_a.
Proof.
  assert (97 <= tcell.Rune key_a <= 122) as Hr
    by (vm_compute; split; discriminate).
  split; [reflexivity|]. split; [reflexivity|]. split; [exact Hr|].
  split; [reflexivity|].
  destruct (letters_fold_to_capital (tables := ascii_tables) key_a key_A
              eq_refl eq_refl Hr eq_refl) as [Hlow Hup].
  split; [rewrite Hlow; reflexivity|exact Hup].
Defined.

(** The ASCII instance maps no rune to a negative one. *)
Lemma label_never_empty_witness :
  (∀ c, 0 <= c → 0 <= @unicode_To_UpperCase ascii_tables c)
  ∧ @labelFromEvent ascii_tables key_a ≠ EmptyString.
Proof.
  assert (∀ c, 0 <= c → 0 <= @unicode_To_UpperCase ascii_tables c) as Htab
    by (intros c Hc; exact Hc).
  split; [exact Htab|].
  apply (label_never_empty (tables := ascii_tables) key_a Htab).
Defined.

(** The code 13 is on the keyboard, the code 300 is not. *)
Lemma labels_and_layout_witness :
  tcell.Key key_code_13 ∈ named_keys
  ∧ @labelFromEvent ascii_tables key_code_13 ∈ layout_labels
  ∧ unrecognised (tcell.Key key_code_300)
  ∧ (@labelFromEvent ascii_tables key_code_300 ∉ layout_labels).
Proof.
  assert (tcell.Key key_code_13 ∈ named_keys) as Hnamed
    by (apply (bool_decide_unpack _); vm_compute; exact I).
  assert (unrecognised (tcell.Key key_code_300)) as Hun.
  { split; [|split].
    - apply (bool_decide_unpack _). vm_compute. exact I.
    - vm_compute. discriminate.
    - vm_compute. intros [_ Hle]. apply Hle. reflexivity. }
  split; [exact Hnamed|].
  split.
  - apply (labels_and_layout (tables := ascii_tables) key_code_13).
    left. exact Hnamed.
  - split; [exact Hun|].
    apply (labels_and_layout (tables := ascii_tables) key_code_300).
    exact Hun.
Defined.

(** The row of [Esc] and [F1]: the second key starts at column 6. *)
Lemma addRow_columns_witness :
  row_width ["Esc"; "F1"] <= max_int
  ∧ ∃ k, addRow [] ["Esc"; "F1"] 0 !! 1%nat = Some k ∧ X k = 6 ∧ W k = 4.
Proof.
  assert (row_width ["Esc"; "F1"] <= max_int) as Hfit
    by (vm_compute; discriminate).
  split; [exact Hfit|].
  assert (∃ k, addRow [] ["Esc"; "F1"] 0 !! 1%nat = Some k) as [k Hk]
    by (eexists; vm_compute; reflexivity).
  exists k. split; [exact Hk|].
  destruct (addRow_columns ["Esc"; "F1"] 0 _ Hfit eq_refl) as [Hcol _].
  destruct (Hcol 1%nat k Hk) as [HX HW].
  split; [rewrite HX; vm_compute; reflexivity|].
  rewrite HW. vm_compute in Hk. injection Hk as <-. vm_compute. reflexivity.
Defined.

(** The key [Esc] of the layout: its letter [E] is at column 1. *)
Lemma drawKey_paints_its_rectangle_witness :
  W esc_key = len (Label esc_key) + 2
  ∧ 1 <= H esc_key ∧ 0 <= X esc_key ∧ 0 <= Y esc_key
  ∧ X esc_key + W esc_key <= max_int ∧ Y esc_key + H esc_key <= max_int
  ∧ tcell.SetContent 4 2 32 tcell.StyleBlue ∈ drawKey esc_key tcell.StyleBlue
  ∧ tcell.SetContent 1 0 69 tcell.StyleBlue ∈ drawKey esc_key tcell.StyleBlue.
Proof.
  assert (W esc_key = len (Label esc_key) + 2) as HW by reflexivity.
  assert (1 <= H esc_key) as HH by (vm_compute; discriminate).
  assert (0 <= X esc_key) as HX by (vm_compute; discriminate).
  assert (0 <= Y esc_key) as HY by (vm_compute; discriminate).
  assert (X esc_key + W esc_key <= max_int) as HfX
    by (vm_compute; discriminate).
  assert (Y esc_key + H esc_key <= max_int) as HfY
    by (vm_compute; discriminate).
  destruct (drawKey_paints_its_rectangle esc_key tcell.StyleBlue
              HW HH HX HY HfX HfY) as (_ & Hfill & Hlabel).
  repeat (split; [assumption|]).
  split.
  - apply Hfill; vm_compute; (split; [discriminate|reflexivity]).
  - apply (Hlabel 0 69). apply elem_of_cons. left. reflexivity.
Defined.

(** A mark on ["Key[300]"] shows nowhere. *)
Lemma drawAll_reads_key_labels_witness :
  (∀ k, k ∈ initKeys →
        is_pressed ∅ (Label k) = is_pressed marked_unknown (Label k))
  ∧ drawAll 10 initKeys [] ∅ = drawAll 10 initKeys [] marked_unknown.
Proof.
  assert (∀ k, k ∈ initKeys →
               is_pressed ∅ (Label k) = is_pressed marked_unknown (Label k))
    as Hagree.
  { apply Forall_forall. apply (bool_decide_unpack _). vm_compute. exact I. }
  split; [exact Hagree|].
  apply (drawAll_reads_key_labels 10 initKeys [] ∅ marked_unknown Hagree).
Defined.

(** With ["Esc"] marked, the first cell of the frame's keyboard is blue. *)
Lemma drawAll_highlights_marked_keys_witness :
  ∃ frame,
    drawAll 10 initKeys [] marked_esc = Some frame
    ∧ tcell.SetContent 0 0 32 tcell.StyleBlue ∈ frame.
Proof.
  assert (∃ frame, drawAll 10 initKeys [] marked_esc = Some frame)
    as [frame Hframe] by (eexists; vm_compute; reflexivity).
  exists frame. split; [exact Hframe|].
  apply (drawAll_highlights_marked_keys _ _ _ _ _ 0 0 32 Hframe).
  exists esc_key. split; [|split].
  - apply elem_of_cons. left. reflexivity.
  - reflexivity.
  - apply elem_of_cons. left. reflexivity.
Defined.

(** The frame after the key [a] on a screen of 38 rows. *)
Lemma log_drawn_inside_screen_witness :
  ∃ st' out,
    0 <= scrH rows_38 <= max_int
    ∧ @loop_body ascii_tables initKeys two_lines (tcell.EvKey key_a) rows_38
      = Continue st' out
    ∧ Forall (λ c, ∃ x y r, c = tcell.SetContent x y r tcell.StyleDefault
                            ∧ 0 <= x < scrW rows_38
                            ∧ 35 < y < scrH rows_38)
             (draw_logs (scrW rows_38) 35 (logs st')).
Proof.
  assert (0 <= scrH rows_38 <= max_int) as Hh
    by (vm_compute; split; discriminate).
  assert (∃ st' out,
            @loop_body ascii_tables initKeys two_lines (tcell.EvKey key_a)
              rows_38 = Continue st' out)
    as (st' & out & Hstep) by (eexists _, _; vm_compute; reflexivity).
  exists st', out. split; [exact Hh|]. split; [exact Hstep|].
  apply (log_drawn_inside_screen _ _ _ _ _ Hh Hstep).
Defined.

(** [main] before any event. *)
Lemma main_first_frame_witness :
  ∃ st out frame rest,
    @main ascii_tables 10 [] = Continue st out
    ∧ out = frame ++ tcell.Show :: rest
    ∧ ∀ x y r, tcell.SetContent x y r tcell.StyleBlue ∉ frame.
Proof.
  assert (∃ st out, @main ascii_tables 10 [] = Continue st out)
    as (st & out & Hmain) by (eexists _, _; vm_compute; reflexivity).
  destruct (main_first_frame _ _ _ _ Hmain)
    as (frame & rest & Hout & _ & _ & Hblue).
  exists st, out, frame, rest.
  split; [exact Hmain|]. split; [exact Hout|exact Hblue].
Defined.

(** A key and a resize: one [Clear], one [Show], one [Sync]. *)
Lemma screen_calls_of_a_run_witness :
  ∃ st' out,
    @main_loop ascii_tables initial
      [(tcell.EvKey key_a, rows_38); (tcell.EvResize, rows_40)]
    = Continue st' out
    ∧ count_calls is_clear out = 1%nat
    ∧ count_calls is_show out = 1%nat
    ∧ count_calls is_sync out = 1%nat.
Proof.
  assert (∃ st' out,
            @main_loop ascii_tables initial
              [(tcell.EvKey key_a, rows_38); (tcell.EvResize, rows_40)]
            = Continue st' out)
    as (st' & out & Hrun) by (eexists _, _; vm_compute; reflexivity).
  exists st', out. split; [exact Hrun|].
  destruct (screen_calls_of_a_run _ _ _ _ Hrun) as (Hc & Hs & Hy).
  split; [exact Hc|]. split; [exact Hs|exact Hy].
Defined.
